(** * The streaming delivery engine of teams-ai

    A shallow embedding of [teams/streaming/streaming_response.py]: the
    class [StreamingResponse], its producer methods, its lazily
    materialised jobs and the drain task that sends them one at a time.

    The embedding follows the Python object model where the code depends
    on it.  Attributes declared at class scope are defaults: an instance
    reads the class attribute until it binds one of its own.  For the
    immutable defaults (numbers, strings, booleans, [None]) that is the
    same as every instance starting with a private copy.  For the three
    list defaults ([_queue], [_citations], [_attachments]) it is not, so
    the class-level lists are objects of the world, and an instance slot
    says whether the instance has bound an attribute of its own. *)

From Stdlib Require Import ZArith List String Bool Lia Permutation DecimalString.
Import ListNotations.

Local Open Scope string_scope.
Local Open Scope list_scope.
Local Open Scope Z_scope.

(** ** Wire data *)

(** [Activity.type]: the two values the engine uses. *)
Inductive ActivityType := Typing | Message.

(** [StreamingChannelData.stream_type]. *)
Inductive StreamType := Informative | Streaming | Final.

(** [Literal["default", "custom"]]. *)
Inductive FeedbackLoopType := FeedbackDefault | FeedbackCustom.

(** Attachments and sensitivity labels are carried unchanged; the engine
    never looks inside them. *)
Definition Attachment := string.

Record SensitivityUsageInfo := { sensitivity_name : string }.

(** [Citation] from [ai.prompts.message]: the engine reads [title] and
    [content]. *)
Record Citation := { title : option string; content : string }.

Record Appearance := { name : string; abstract : string }.

Record ClientCitation := { position : Z; appearance : Appearance }.

(** The fields of [StreamingChannelData] that the engine reads or writes.
    [to_dict] and [from_dict] are taken to round-trip, so an activity keeps
    its channel data as this record. *)
Record StreamingChannelData := {
  stream_type : StreamType;
  stream_sequence : option Z;
  stream_id : option string;
  feedback_loop_enabled : option bool;
  feedback_loop_type : option FeedbackLoopType
}.

(** [StreamingChannelData(stream_type=..., stream_sequence=...)]: the
    remaining fields default to [None]. *)
Definition new_channel_data (t : StreamType) (n : option Z) : StreamingChannelData :=
  {| stream_type := t; stream_sequence := n; stream_id := None;
     feedback_loop_enabled := None; feedback_loop_type := None |}.

Inductive Entity :=
| StreamingEntity (sid : option string) (seq : option Z) (kind : StreamType)
| AIEntity (additional_type : list string) (citation : list ClientCitation)
           (usage_info : option SensitivityUsageInfo).

(** [entities] is unset on a new activity and assigned by [send_activity];
    the model starts it as the empty list. *)
Record Activity := {
  type : ActivityType;
  text : string;
  attachments : option (list Attachment);
  channel_data : StreamingChannelData;
  entities : list Entity
}.

(** What [TurnContext.send_activity] returns when it returns a response. *)
Record ResourceResponse := { response_id : option string }.

Inductive ApplicationError := AppError (msg : string).

Definition stream_already_ended : ApplicationError :=
  AppError "The stream has already ended.".

Definition error_when_sending : ApplicationError :=
  AppError "Error occured when sending activity while streaming:".

(** ** The drain task and the jobs *)

(** Where the coroutine [_drain_queue] is suspended.  [Scheduled]: created
    by [asyncio.create_task] and not yet run.  [AwaitingSend]: inside
    [await self._context.send_activity(activity)].  [Sleeping r]: inside
    [await asyncio.sleep(1.5)], holding the response [r] of the send. *)
Inductive Task :=
| Scheduled
| AwaitingSend
| Sleeping (response : option ResourceResponse).

(** A queued factory.  [JConst a] is [lambda: activity]; [JFormatNextChunk
    self] is the closure [_format_next_chunk], which captures [self]. *)
Inductive Job :=
| JConst (activity : Activity)
| JFormatNextChunk (self : nat).

(** ** Instances *)

(** The attributes of one [StreamingResponse].  [_attachments] and
    [_citations] are [None] while the instance has bound no attribute of its
    own and reads the class-level list.  [_queue] has no slot: no method ever
    assigns [self._queue], every access goes to the class attribute.
    [_stream_id] is [Some ""] at first and takes whatever [response.id] is. *)
Record Instance := {
  _context : nat;
  _next_sequence : Z;
  _stream_id : option string;
  _message : string;
  _attachments : option (list Attachment);
  _ended : bool;
  _citations : option (list ClientCitation);
  _sensitivity_label : option SensitivityUsageInfo;
  _enable_feedback_loop : bool;
  _feedback_loop_type : option FeedbackLoopType;
  _enable_generated_by_ai_label : bool;
  _queue_sync : option Task;
  _chunk_queued : bool
}.

Definition with_next_sequence (v : Z) (i : Instance) : Instance :=
  {| _context := _context i; _next_sequence := v; _stream_id := _stream_id i;
     _message := _message i; _attachments := _attachments i; _ended := _ended i;
     _citations := _citations i; _sensitivity_label := _sensitivity_label i;
     _enable_feedback_loop := _enable_feedback_loop i;
     _feedback_loop_type := _feedback_loop_type i;
     _enable_generated_by_ai_label := _enable_generated_by_ai_label i;
     _queue_sync := _queue_sync i; _chunk_queued := _chunk_queued i |}.

Definition with_stream_id (v : option string) (i : Instance) : Instance :=
  {| _context := _context i; _next_sequence := _next_sequence i; _stream_id := v;
     _message := _message i; _attachments := _attachments i; _ended := _ended i;
     _citations := _citations i; _sensitivity_label := _sensitivity_label i;
     _enable_feedback_loop := _enable_feedback_loop i;
     _feedback_loop_type := _feedback_loop_type i;
     _enable_generated_by_ai_label := _enable_generated_by_ai_label i;
     _queue_sync := _queue_sync i; _chunk_queued := _chunk_queued i |}.

Definition with_message (v : string) (i : Instance) : Instance :=
  {| _context := _context i; _next_sequence := _next_sequence i;
     _stream_id := _stream_id i; _message := v; _attachments := _attachments i;
     _ended := _ended i; _citations := _citations i;
     _sensitivity_label := _sensitivity_label i;
     _enable_feedback_loop := _enable_feedback_loop i;
     _feedback_loop_type := _feedback_loop_type i;
     _enable_generated_by_ai_label := _enable_generated_by_ai_label i;
     _queue_sync := _queue_sync i; _chunk_queued := _chunk_queued i |}.

Definition with_attachments (v : option (list Attachment)) (i : Instance) : Instance :=
  {| _context := _context i; _next_sequence := _next_sequence i;
     _stream_id := _stream_id i; _message := _message i; _attachments := v;
     _ended := _ended i; _citations := _citations i;
     _sensitivity_label := _sensitivity_label i;
     _enable_feedback_loop := _enable_feedback_loop i;
     _feedback_loop_type := _feedback_loop_type i;
     _enable_generated_by_ai_label := _enable_generated_by_ai_label i;
     _queue_sync := _queue_sync i; _chunk_queued := _chunk_queued i |}.

Definition with_ended (v : bool) (i : Instance) : Instance :=
  {| _context := _context i; _next_sequence := _next_sequence i;
     _stream_id := _stream_id i; _message := _message i;
     _attachments := _attachments i; _ended := v; _citations := _citations i;
     _sensitivity_label := _sensitivity_label i;
     _enable_feedback_loop := _enable_feedback_loop i;
     _feedback_loop_type := _feedback_loop_type i;
     _enable_generated_by_ai_label := _enable_generated_by_ai_label i;
     _queue_sync := _queue_sync i; _chunk_queued := _chunk_queued i |}.

Definition with_citations (v : option (list ClientCitation)) (i : Instance) : Instance :=
  {| _context := _context i; _next_sequence := _next_sequence i;
     _stream_id := _stream_id i; _message := _message i;
     _attachments := _attachments i; _ended := _ended i; _citations := v;
     _sensitivity_label := _sensitivity_label i;
     _enable_feedback_loop := _enable_feedback_loop i;
     _feedback_loop_type := _feedback_loop_type i;
     _enable_generated_by_ai_label := _enable_generated_by_ai_label i;
     _queue_sync := _queue_sync i; _chunk_queued := _chunk_queued i |}.

Definition with_sensitivity_label (v : option SensitivityUsageInfo) (i : Instance) : Instance :=
  {| _context := _context i; _next_sequence := _next_sequence i;
     _stream_id := _stream_id i; _message := _message i;
     _attachments := _attachments i; _ended := _ended i; _citations := _citations i;
     _sensitivity_label := v; _enable_feedback_loop := _enable_feedback_loop i;
     _feedback_loop_type := _feedback_loop_type i;
     _enable_generated_by_ai_label := _enable_generated_by_ai_label i;
     _queue_sync := _queue_sync i; _chunk_queued := _chunk_queued i |}.

Definition with_enable_feedback_loop (v : bool) (i : Instance) : Instance :=
  {| _context := _context i; _next_sequence := _next_sequence i;
     _stream_id := _stream_id i; _message := _message i;
     _attachments := _attachments i; _ended := _ended i; _citations := _citations i;
     _sensitivity_label := _sensitivity_label i; _enable_feedback_loop := v;
     _feedback_loop_type := _feedback_loop_type i;
     _enable_generated_by_ai_label := _enable_generated_by_ai_label i;
     _queue_sync := _queue_sync i; _chunk_queued := _chunk_queued i |}.

Definition with_feedback_loop_type (v : option FeedbackLoopType) (i : Instance) : Instance :=
  {| _context := _context i; _next_sequence := _next_sequence i;
     _stream_id := _stream_id i; _message := _message i;
     _attachments := _attachments i; _ended := _ended i; _citations := _citations i;
     _sensitivity_label := _sensitivity_label i;
     _enable_feedback_loop := _enable_feedback_loop i; _feedback_loop_type := v;
     _enable_generated_by_ai_label := _enable_generated_by_ai_label i;
     _queue_sync := _queue_sync i; _chunk_queued := _chunk_queued i |}.

Definition with_enable_generated_by_ai_label (v : bool) (i : Instance) : Instance :=
  {| _context := _context i; _next_sequence := _next_sequence i;
     _stream_id := _stream_id i; _message := _message i;
     _attachments := _attachments i; _ended := _ended i; _citations := _citations i;
     _sensitivity_label := _sensitivity_label i;
     _enable_feedback_loop := _enable_feedback_loop i;
     _feedback_loop_type := _feedback_loop_type i;
     _enable_generated_by_ai_label := v; _queue_sync := _queue_sync i;
     _chunk_queued := _chunk_queued i |}.

Definition with_queue_sync (v : option Task) (i : Instance) : Instance :=
  {| _context := _context i; _next_sequence := _next_sequence i;
     _stream_id := _stream_id i; _message := _message i;
     _attachments := _attachments i; _ended := _ended i; _citations := _citations i;
     _sensitivity_label := _sensitivity_label i;
     _enable_feedback_loop := _enable_feedback_loop i;
     _feedback_loop_type := _feedback_loop_type i;
     _enable_generated_by_ai_label := _enable_generated_by_ai_label i;
     _queue_sync := v; _chunk_queued := _chunk_queued i |}.

Definition with_chunk_queued (v : bool) (i : Instance) : Instance :=
  {| _context := _context i; _next_sequence := _next_sequence i;
     _stream_id := _stream_id i; _message := _message i;
     _attachments := _attachments i; _ended := _ended i; _citations := _citations i;
     _sensitivity_label := _sensitivity_label i;
     _enable_feedback_loop := _enable_feedback_loop i;
     _feedback_loop_type := _feedback_loop_type i;
     _enable_generated_by_ai_label := _enable_generated_by_ai_label i;
     _queue_sync := _queue_sync i; _chunk_queued := v |}.

(** The class-scope declarations, lines 35-50. *)
Definition class_defaults (context : nat) : Instance :=
  {| _context := context; _next_sequence := 1; _stream_id := Some "";
     _message := ""; _attachments := None; _ended := false; _citations := None;
     _sensitivity_label := None; _enable_feedback_loop := false;
     _feedback_loop_type := None; _enable_generated_by_ai_label := false;
     _queue_sync := None; _chunk_queued := false |}.

(** ** The world *)

(** One activity handed to the transport, with the turn context it was
    handed to. *)
Definition Delivery := (nat * Activity)%type.

(** [loop_running]: whether the calls are made inside a running asyncio
    event loop ([asyncio.create_task] raises when there is none).
    [cls_queue], [cls_citations], [cls_attachments]: the list objects bound
    to [StreamingResponse._queue], [._citations] and [._attachments].
    [objs]: the instances by identity; [next_obj]: the next identity.
    [sent]: the transport's log, oldest first. *)
Record World := {
  loop_running : bool;
  cls_queue : list Job;
  cls_citations : list ClientCitation;
  cls_attachments : list Attachment;
  objs : nat -> Instance;
  next_obj : nat;
  sent : list Delivery
}.

Definition with_cls_queue (v : list Job) (w : World) : World :=
  {| loop_running := loop_running w; cls_queue := v;
     cls_citations := cls_citations w; cls_attachments := cls_attachments w;
     objs := objs w; next_obj := next_obj w; sent := sent w |}.

Definition with_cls_citations (v : list ClientCitation) (w : World) : World :=
  {| loop_running := loop_running w; cls_queue := cls_queue w; cls_citations := v;
     cls_attachments := cls_attachments w; objs := objs w; next_obj := next_obj w;
     sent := sent w |}.

Definition with_objs (v : nat -> Instance) (w : World) : World :=
  {| loop_running := loop_running w; cls_queue := cls_queue w;
     cls_citations := cls_citations w; cls_attachments := cls_attachments w;
     objs := v; next_obj := next_obj w; sent := sent w |}.

Definition with_next_obj (v : nat) (w : World) : World :=
  {| loop_running := loop_running w; cls_queue := cls_queue w;
     cls_citations := cls_citations w; cls_attachments := cls_attachments w;
     objs := objs w; next_obj := v; sent := sent w |}.

Definition with_sent (v : list Delivery) (w : World) : World :=
  {| loop_running := loop_running w; cls_queue := cls_queue w;
     cls_citations := cls_citations w; cls_attachments := cls_attachments w;
     objs := objs w; next_obj := next_obj w; sent := v |}.

Definition upd (f : nat -> Instance) (self : nat) (i : Instance) : nat -> Instance :=
  fun j => if Nat.eqb j self then i else f j.

Definition modify (self : nat) (f : Instance -> Instance) (w : World) : World :=
  with_objs (upd (objs w) self (f (objs w self))) w.

(** Attribute lookup for the two list attributes an instance may or may not
    have bound: the instance's own list, else the class-level one. *)
Definition read_attachments (w : World) (i : Instance) : list Attachment :=
  match _attachments i with Some l => l | None => cls_attachments w end.

Definition read_citations (w : World) (i : Instance) : list ClientCitation :=
  match _citations i with Some l => l | None => cls_citations w end.

(** The read-only properties [stream_id], [message] and [citations],
    lines 59-78. *)
Module Property.

Definition stream_id (i : Instance) : option string := _stream_id i.

Definition message (i : Instance) : string := _message i.

Definition citations (w : World) (i : Instance) : list ClientCitation :=
  read_citations w i.

End Property.

(** The state after the module is imported, and [StreamingResponse(context)]:
    [__init__] binds [_context] and nothing else. *)
Definition module_loaded (running : bool) : World :=
  {| loop_running := running; cls_queue := []; cls_citations := [];
     cls_attachments := []; objs := fun _ => class_defaults 0; next_obj := 0;
     sent := [] |}.

Definition __init__ (context : nat) (w : World) : nat * World :=
  (next_obj w,
   with_next_obj (S (next_obj w))
     (with_objs (upd (objs w) (next_obj w) (class_defaults context)) w)).

(** ** Producer calls: state and exceptions *)

Inductive Outcome (A : Type) :=
| Returned (a : A)
| Raised (e : ApplicationError).

Arguments Returned {A} a.
Arguments Raised {A} e.

Definition M (A : Type) : Type := World -> Outcome A * World.

Definition ret {A} (a : A) : M A := fun w => (Returned a, w).

Definition raise {A} (e : ApplicationError) : M A := fun w => (Raised e, w).

Definition bind {A B} (m : M A) (k : A -> M B) : M B :=
  fun w =>
    match m w with
    | (Returned a, w') => k a w'
    | (Raised e, w') => (Raised e, w')
    end.

Notation "x <- m ;; k" := (bind m (fun x => k))
  (at level 61, m at next level, right associativity).
Notation "m ;; k" := (bind m (fun _ => k))
  (at level 61, right associativity).

Definition read (self : nat) : M Instance := fun w => (Returned (objs w self), w).

Definition update (self : nat) (f : Instance -> Instance) : M unit :=
  fun w => (Returned tt, modify self f w).

(** Python truthiness of an optional string. *)
Definition truthy (s : option string) : bool :=
  match s with
  | Some s => negb (String.eqb s "")
  | None => false
  end.

Definition is_empty {A} (l : list A) : bool :=
  match l with [] => true | _ => false end.

(** The collaborators from [teams.utils], which are not part of this file:
    every result below holds for any choice of them. *)
Class Utils := {
  snippet : string -> Z -> string;
  format_citations_response : string -> string;
  get_used_citations : string -> list ClientCitation -> option (list ClientCitation)
}.

(** What [end_stream] is suspended on once its synchronous part is over:
    [await self._queue_sync] or [await asyncio.sleep(0)]. *)
Inductive Awaited := AwaitDrain | AwaitYield.

Section Engine.

Context {U : Utils}.

Definition set_attachments (self : nat) (l : list Attachment) : M unit :=
  update self (with_attachments (Some l)).

Definition set_feedback_loop (self : nat) (enable_feedback_loop : bool) : M unit :=
  update self (with_enable_feedback_loop enable_feedback_loop).

Definition set_feedback_loop_type (self : nat) (t : FeedbackLoopType) : M unit :=
  update self (with_feedback_loop_type (Some t)).

Definition set_sensitivity_label (self : nat) (l : SensitivityUsageInfo) : M unit :=
  update self (with_sensitivity_label (Some l)).

Definition set_generated_by_ai_label (self : nat) (enable : bool) : M unit :=
  update self (with_enable_generated_by_ai_label enable).

Definition updates_sent (i : Instance) : Z := _next_sequence i - 1.

(** [citation.title or f"Document {curr_pos + 1}"]. *)
Definition title_or_document (t : option string) (n : Z) : string :=
  let document := ("Document " ++ NilZero.string_of_int (Z.to_int n))%string in
  match t with
  | Some s => if String.eqb s "" then document else s
  | None => document
  end.

(** The loop of [set_citations], appending to [l] in place. *)
Fixpoint append_citations (l : list ClientCitation) (curr_pos : Z)
    (citations : list Citation) : list ClientCitation :=
  match citations with
  | [] => l
  | citation :: rest =>
      append_citations
        (l ++ [ {| position := curr_pos + 1;
                   appearance :=
                     {| name := title_or_document (title citation) (curr_pos + 1);
                        abstract := snippet (content citation) 477 |} |} ])
        (curr_pos + 1) rest
  end.

(** [if not self._citations: self._citations = []] binds a fresh list on the
    instance whenever the list it reads is empty, in particular the first
    time, when it still reads the class-level list.  Only a non-empty
    class-level list read by an instance without its own would be appended
    to in place. *)
Definition set_citations (self : nat) (citations : list Citation) : M unit :=
  fun w =>
    if 0 <? Z.of_nat (List.length citations) then
      match _citations (objs w self), cls_citations w with
      | Some l, _ =>
          update self
            (with_citations (Some (append_citations l (Z.of_nat (List.length l)) citations))) w
      | None, [] =>
          update self (with_citations (Some (append_citations [] 0 citations))) w
      | None, l =>
          (Returned tt,
           with_cls_citations (append_citations l (Z.of_nat (List.length l)) citations) w)
      end
    else (Returned tt, w).

(** [asyncio.create_task] schedules the coroutine, or raises when no event
    loop is running ([None] here). *)
Definition drain_queue (self : nat) (w : World) : option Task :=
  if loop_running w then Some Scheduled else None.

Definition queue_activity (self : nat) (factory : Job) : M unit :=
  fun w =>
    let w := with_cls_queue (cls_queue w ++ [factory]) w in
    match _queue_sync (objs w self) with
    | Some _ => (Returned tt, w)
    | None =>
        match drain_queue self w with
        | Some task => update self (with_queue_sync (Some task)) w
        | None => (Raised error_when_sending, w)
        end
    end.

Definition queue_next_chunk (self : nat) : M unit :=
  i <- read self ;;
  if _chunk_queued i then ret tt
  else
    update self (with_chunk_queued true) ;;
    queue_activity self (JFormatNextChunk self).

Definition queue_informative_update (self : nat) (text : string) : M unit :=
  i <- read self ;;
  if _ended i then raise stream_already_ended
  else
    let activity :=
      {| type := Typing; text := text; attachments := None;
         channel_data := new_channel_data Informative (Some (_next_sequence i));
         entities := [] |} in
    queue_activity self (JConst activity) ;;
    update self (fun i => with_next_sequence (_next_sequence i + 1) i).

Definition queue_text_chunk (self : nat) (text : string)
    (citations : option (list Citation)) : M unit :=
  i <- read self ;;
  if _ended i then raise stream_already_ended
  else
    update self (fun i => with_message (_message i ++ text)%string i) ;;
    update self (fun i => with_message (format_citations_response (_message i)) i) ;;
    queue_next_chunk self.

Definition wait_for_queue (self : nat) : M Awaited :=
  i <- read self ;;
  match _queue_sync i with
  | Some _ => ret AwaitDrain
  | None => ret AwaitYield
  end.

(** [end_stream] up to its first suspension point. *)
Definition end_stream (self : nat) : M Awaited :=
  i <- read self ;;
  if _ended i then raise stream_already_ended
  else
    update self (with_ended true) ;;
    queue_next_chunk self ;;
    wait_for_queue self.

(** ** The drain task *)

(** The closure [_format_next_chunk] of instance [self], run at dequeue
    time. *)
Definition _format_next_chunk (self : nat) (w : World) : Activity * World :=
  let w := modify self (with_chunk_queued false) w in
  let i := objs w self in
  if _ended i then
    ({| type := Message; text := _message i;
        attachments := Some (read_attachments w i);
        channel_data := new_channel_data Final None; entities := [] |}, w)
  else
    ({| type := Typing; text := _message i; attachments := None;
        channel_data := new_channel_data Streaming (Some (_next_sequence i));
        entities := [] |},
     modify self (fun i => with_next_sequence (_next_sequence i + 1) i) w).

Definition run_factory (factory : Job) (w : World) : Activity * World :=
  match factory with
  | JConst activity => (activity, w)
  | JFormatNextChunk self => _format_next_chunk self w
  end.

Definition with_channel_data (c : StreamingChannelData) (a : Activity) : Activity :=
  {| type := type a; text := text a; attachments := attachments a;
     channel_data := c; entities := entities a |}.

Definition with_entities (l : list Entity) (a : Activity) : Activity :=
  {| type := type a; text := text a; attachments := attachments a;
     channel_data := channel_data a; entities := l |}.

Definition with_cd_stream_id (v : option string) (c : StreamingChannelData)
    : StreamingChannelData :=
  {| stream_type := stream_type c; stream_sequence := stream_sequence c;
     stream_id := v; feedback_loop_enabled := feedback_loop_enabled c;
     feedback_loop_type := feedback_loop_type c |}.

Definition with_cd_feedback_loop_enabled (v : option bool) (c : StreamingChannelData)
    : StreamingChannelData :=
  {| stream_type := stream_type c; stream_sequence := stream_sequence c;
     stream_id := stream_id c; feedback_loop_enabled := v;
     feedback_loop_type := feedback_loop_type c |}.

Definition with_cd_feedback_loop_type (v : option FeedbackLoopType)
    (c : StreamingChannelData) : StreamingChannelData :=
  {| stream_type := stream_type c; stream_sequence := stream_sequence c;
     stream_id := stream_id c; feedback_loop_enabled := feedback_loop_enabled c;
     feedback_loop_type := v |}.

(** [send_activity], lines 279-322: everything before the activity is handed
    to the transport.  It reads the sending instance, never the job. *)
Definition send_activity_prepare (w : World) (self : nat) (activity : Activity)
    : Activity :=
  let i := objs w self in
  let channel_data1 :=
    if truthy (_stream_id i)
    then with_cd_stream_id (_stream_id i) (channel_data activity)
    else channel_data activity in
  let entity :=
    StreamingEntity (stream_id channel_data1) (stream_sequence channel_data1)
      (stream_type channel_data1) in
  let citations := read_citations w i in
  let entities1 :=
    if negb (is_empty citations) && negb (_ended i)
    then
      [entity;
       AIEntity []
         match get_used_citations (_message i) citations with
         | Some curr_citations => curr_citations
         | None => []
         end
         None]
    else [entity] in
  if _ended i then
    let channel_data2 :=
      if _enable_feedback_loop i
      then with_cd_feedback_loop_enabled (Some true) channel_data1
      else channel_data1 in
    let channel_data3 :=
      if negb (_enable_feedback_loop i)
      then
        match _feedback_loop_type i with
        | Some t => with_cd_feedback_loop_type (Some t) channel_data2
        | None => channel_data2
        end
      else channel_data2 in
    let entities2 :=
      if _enable_generated_by_ai_label i
      then entities1 ++ [AIEntity ["AIGeneratedContent"] citations (_sensitivity_label i)]
      else entities1 in
    with_entities entities2 (with_channel_data channel_data3 activity)
  else
    with_entities entities1 (with_channel_data channel_data1 activity).

(** [send_activity], lines 328-330: after the send and the pause. *)
Definition send_activity_finish (response : option ResourceResponse) (i : Instance)
    : Instance :=
  match response with
  | Some r => if truthy (_stream_id i) then i else with_stream_id (response_id r) i
  | None => i
  end.

(** [_drain_queue] from the loop test to its next suspension point: either
    the queue is empty and the [finally] clause marks the engine idle, or the
    head job is popped, materialised, prepared and handed to the transport. *)
Definition _drain_queue (self : nat) (w : World) : World :=
  match cls_queue w with
  | [] => modify self (with_queue_sync None) w
  | factory :: rest =>
      let w := with_cls_queue rest w in
      let (activity, w) := run_factory factory w in
      let activity := send_activity_prepare w self activity in
      let w := with_sent (sent w ++ [(_context (objs w self), activity)]) w in
      modify self (with_queue_sync (Some AwaitingSend)) w
  end.

(** ** Schedules *)

Inductive Call :=
| SetAttachments (l : list Attachment)
| SetFeedbackLoop (enable : bool)
| SetFeedbackLoopType (t : FeedbackLoopType)
| SetSensitivityLabel (l : SensitivityUsageInfo)
| SetGeneratedByAiLabel (enable : bool)
| SetCitations (l : list Citation)
| QueueInformativeUpdate (text : string)
| QueueTextChunk (text : string) (citations : option (list Citation))
| EndStream.

Definition call (self : nat) (c : Call) : M unit :=
  match c with
  | SetAttachments l => set_attachments self l
  | SetFeedbackLoop b => set_feedback_loop self b
  | SetFeedbackLoopType t => set_feedback_loop_type self t
  | SetSensitivityLabel l => set_sensitivity_label self l
  | SetGeneratedByAiLabel b => set_generated_by_ai_label self b
  | SetCitations l => set_citations self l
  | QueueInformativeUpdate text => queue_informative_update self text
  | QueueTextChunk text citations => queue_text_chunk self text citations
  | EndStream => end_stream self ;; ret tt
  end.

(** What can happen to one engine.  asyncio runs one coroutine at a time and
    switches only at an [await], so the code between two suspension points is
    one step.  [Produce c]: the producer makes call [c] (for [EndStream], its
    synchronous part).  The others are the event loop resuming the drain
    task: [TaskStarts] runs a newly created task, [SendReturns r] and
    [SendRaises] end the transport call, [SleepEnds] ends the pause after a
    send.  The transport call is the only place where the task is taken to
    fail; cancellation of the task is not modelled. *)
Inductive Event :=
| Produce (c : Call)
| TaskStarts
| SendReturns (response : option ResourceResponse)
| SendRaises
| SleepEnds.

(** One event on engine [self]; an event the task is not waiting for changes
    nothing. *)
Definition step (self : nat) (w : World) (e : Event) : World :=
  match e, _queue_sync (objs w self) with
  | Produce c, _ => snd (call self c w)
  | TaskStarts, Some Scheduled => _drain_queue self w
  | SendReturns r, Some AwaitingSend => modify self (with_queue_sync (Some (Sleeping r))) w
  | SendRaises, Some AwaitingSend => modify self (with_queue_sync None) w
  | SleepEnds, Some (Sleeping r) => _drain_queue self (modify self (send_activity_finish r) w)
  | _, _ => w
  end.

(** A schedule over several engines, and the schedule of one exchange. *)
Definition run (w : World) (schedule : list (nat * Event)) : World :=
  fold_left (fun w e => step (fst e) w (snd e)) schedule w.

Definition exchange (self : nat) (w : World) (events : list Event) : World :=
  fold_left (step self) events w.

(** The drain task left to itself on a transport that never fails: the
    event the task is waiting for, and the task run for at most [fuel]
    events or until it has finished. *)
Definition next_task_event (t : Task) : Event :=
  match t with
  | Scheduled => TaskStarts
  | AwaitingSend => SendReturns None
  | Sleeping _ => SleepEnds
  end.

Fixpoint settle (self : nat) (fuel : nat) (w : World) : World :=
  match fuel with
  | O => w
  | S fuel' =>
      match _queue_sync (objs w self) with
      | None => w
      | Some t => settle self fuel' (step self w (next_task_event t))
      end
  end.

(** How many events the task still needs when every send succeeds. *)
Definition remaining (self : nat) (w : World) : nat :=
  let n := List.length (cls_queue w) in
  match _queue_sync (objs w self) with
  | None => 0
  | Some Scheduled => 2 * n + 1
  | Some AwaitingSend => 2 * n + 2
  | Some (Sleeping _) => 2 * n + 1
  end.

(** The first exchange after the module is loaded. *)
Definition fresh_exchange (running : bool) (context : nat) : World :=
  snd (__init__ context (module_loaded running)).

Definition first_engine (running : bool) (context : nat) : nat :=
  fst (__init__ context (module_loaded running)).

End Engine.

(** ** A concrete choice of collaborators, to run the model on examples *)

(** Whether [p] occurs in [s]. *)
Fixpoint occurs (p s : string) : bool :=
  match s with
  | EmptyString => String.eqb p ""
  | String _ s' => String.prefix p s || occurs p s'
  end.

Definition marker (c : ClientCitation) : string :=
  ("[" ++ NilZero.string_of_int (Z.to_int (position c)) ++ "]")%string.

(** Modelled from the spec: the helpers [excerpt], [formatCitationMarkers]
    and [extractUsedCitations] of section 6 live in [teams.utils], outside
    this file.  Here the excerpt is the prefix of the given length; the
    marker normalisation is the identity, as it is on text without
    placeholders, the only text the examples use; the filter keeps the
    citations whose marker [[n]] occurs in the text and answers [None] when
    there is none. *)
Definition plain_utils : Utils :=
  {| snippet := fun s n => substring 0 (Z.to_nat n) s;
     format_citations_response := fun s => s;
     get_used_citations := fun text citations =>
       match filter (fun c => occurs (marker c) text) citations with
       | [] => None
       | l => Some l
       end |}.

(** ** Observations on the queue and on the transport's log *)

Definition is_flush (j : Job) : bool :=
  match j with JFormatNextChunk _ => true | JConst _ => false end.

(** The number of queued [_format_next_chunk] jobs. *)
Definition count_chunks (q : list Job) : nat := List.length (filter is_flush q).

Definition is_final (d : Delivery) : bool :=
  match stream_type (channel_data (snd d)) with Final => true | _ => false end.

Definition count_final (l : list Delivery) : nat := List.length (filter is_final l).

Definition sequence_of (a : Activity) : list Z :=
  match stream_sequence (channel_data a) with Some n => [n] | None => [] end.

(** The sequence numbers on the wire, in the order of sending, and those
    fixed in queued jobs, in queue order. *)
Definition sent_sequences (l : list Delivery) : list Z :=
  flat_map (fun d => sequence_of (snd d)) l.

Definition job_sequences (q : list Job) : list Z :=
  flat_map (fun j => match j with JConst a => sequence_of a | JFormatNextChunk _ => [] end) q.

(** [1; 2; ...; n]. *)
Definition Zseq (n : nat) : list Z := map Z.of_nat (seq 1 n).

(** An activity as [queue_informative_update] builds it. *)
Definition informative_shape (a : Activity) : Prop :=
  type a = Typing /\ attachments a = None /\ entities a = [] /\
  exists n, channel_data a = new_channel_data Informative (Some n).

Definition job_ok (self : nat) (j : Job) : Prop :=
  match j with
  | JConst a => informative_shape a
  | JFormatNextChunk owner => owner = self
  end.

(** What holds of every activity on the wire: the final one is the durable
    message and has no sequence number, the others are typing activities
    with one; the two feedback fields are never both present. *)
Definition delivery_ok (d : Delivery) : Prop :=
  let a := snd d in
  (is_final d = true -> stream_sequence (channel_data a) = None /\ type a = Message) /\
  (is_final d = false ->
   type a = Typing /\ exists n, stream_sequence (channel_data a) = Some n) /\
  (feedback_loop_enabled (channel_data a) = None \/
   feedback_loop_type (channel_data a) = None).

(** The invariant of one exchange. *)
Record Inv (self : nat) (w : World) : Prop := {
  inv_jobs : Forall (job_ok self) (cls_queue w);
  inv_guard :
    count_chunks (cls_queue w) = if _chunk_queued (objs w self) then 1%nat else 0%nat;
  inv_final :
    count_final (sent w) =
    if _ended (objs w self) && negb (_chunk_queued (objs w self)) then 1%nat else 0%nat;
  inv_sent : Forall delivery_ok (sent w)
}.

(** Inside a running loop the numbers handed out so far are [1] to
    [updates_sent], each once, on the wire or in a queued update. *)
Definition Numbered (self : nat) (w : World) : Prop :=
  loop_running w = true /\
  exists n : nat,
    _next_sequence (objs w self) = Z.of_nat n + 1 /\
    Permutation (sent_sequences (sent w) ++ job_sequences (cls_queue w)) (Zseq n).


(** While no send has failed, a non-empty queue has a drain task. *)
Definition Live (self : nat) (w : World) : Prop :=
  loop_running w = true /\
  (cls_queue w <> [] -> _queue_sync (objs w self) <> None).

(** ** Conditions on schedules *)

Definition is_failure (e : Event) : bool :=
  match e with SendRaises => true | _ => false end.

(** Whether [e] is one of the three queueing calls. *)
Definition is_queueing (e : Event) : bool :=
  match e with
  | Produce (QueueInformativeUpdate _) => true
  | Produce (QueueTextChunk _ _) => true
  | Produce EndStream => true
  | _ => false
  end.

Definition is_set_citations (e : Event) : bool :=
  match e with Produce (SetCitations _) => true | _ => false end.

(** The activity carries stream identifier [ident] in its channel data. *)
Definition stamped (ident : string) (d : Delivery) : Prop :=
  stream_id (channel_data (snd d)) = Some ident.

(** One [queue_text_chunk] call, as an event. *)
Definition chunk_call (c : string * option (list Citation)) : Event :=
  Produce (QueueTextChunk (fst c) (snd c)).

(** Whether [c] is one of the six configuration calls. *)
Definition is_configuration (c : Call) : bool :=
  match c with
  | QueueInformativeUpdate _ | QueueTextChunk _ _ | EndStream => false
  | _ => true
  end.

Definition is_set_attachments (e : Event) : bool :=
  match e with Produce (SetAttachments _) => true | _ => false end.

(** The texts of the informative updates on the wire, in the order of
    sending, and of those still queued, in queue order. *)
Definition update_texts_sent (l : list Delivery) : list string :=
  flat_map
    (fun d =>
       match stream_type (channel_data (snd d)) with
       | Informative => [text (snd d)]
       | _ => []
       end) l.

Definition update_texts_queued (q : list Job) : list string :=
  flat_map (fun j => match j with JConst a => [text a] | JFormatNextChunk _ => [] end) q.

(** The first entity of the activity repeats the stream fields of its
    channel data. *)
Definition mirrors_channel_data (a : Activity) : Prop :=
  exists rest,
    entities a =
    StreamingEntity (stream_id (channel_data a)) (stream_sequence (channel_data a))
      (stream_type (channel_data a)) :: rest.

(** The name [set_citations] gives a citation placed at position [p]. *)
Definition named_after (citation : Citation) (c : ClientCitation) : Prop :=
  name (appearance c) = title_or_document (title citation) (position c).

(** What every activity on the wire of an exchange looks like from the
    engine: it went to the engine's turn context, its first entity repeats its
    stream fields, only the final message has attachments, the final message
    has the engine's text, and a stream identifier on it is the one the engine
    has recorded. *)
Definition wire_ok (i : Instance) (d : Delivery) : Prop :=
  fst d = _context i /\
  mirrors_channel_data (snd d) /\
  (is_final d = false -> attachments (snd d) = None) /\
  (is_final d = true -> text (snd d) = _message i) /\
  (forall ident,
     stream_id (channel_data (snd d)) = Some ident ->
     _stream_id i = Some ident /\ ident <> "").

Section Schedules.

Context {U : Utils}.


(** The texts of the [queue_informative_update] calls of a schedule that
    reach the queue, in call order: those made before the stream has
    ended. *)
Fixpoint accepted_updates (self : nat) (w : World) (events : list Event) : list string :=
  match events with
  | [] => []
  | e :: rest =>
      match e with
      | Produce (QueueInformativeUpdate text) =>
          if _ended (objs w self) then [] else [text]
      | _ => []
      end ++ accepted_updates self (step self w e) rest
  end.

End Schedules.

(** * Properties *)

Section Facts.

Context {U : Utils}.

(** ** Lists, counts and sequence numbers *)

Lemma upd_same f self i : upd f self i self = i.
Proof. unfold upd. now rewrite Nat.eqb_refl. Qed.

Lemma upd_other f self i s : s <> self -> upd f self i s = f s.
Proof. intros H. unfold upd. apply Nat.eqb_neq in H. now rewrite H. Qed.


Lemma count_final_app l1 l2 :
  count_final (l1 ++ l2) = (count_final l1 + count_final l2)%nat.
Proof. unfold count_final. now rewrite filter_app, length_app. Qed.

Lemma sent_sequences_app l1 l2 :
  sent_sequences (l1 ++ l2) = sent_sequences l1 ++ sent_sequences l2.
Proof. unfold sent_sequences. apply flat_map_app. Qed.

Lemma job_sequences_app q1 q2 :
  job_sequences (q1 ++ q2) = job_sequences q1 ++ job_sequences q2.
Proof. unfold job_sequences. apply flat_map_app. Qed.

Lemma Zseq_S n : Zseq (S n) = Zseq n ++ [Z.of_nat n + 1].
Proof.
  unfold Zseq. rewrite seq_S, map_app. simpl. do 2 f_equal. lia.
Qed.


Lemma Zseq_length n : List.length (Zseq n) = n.
Proof. unfold Zseq. now rewrite length_map, length_seq. Qed.


(** ** What [send_activity] leaves alone and what it stamps *)

Arguments send_activity_prepare : simpl never.

Ltac split_ifs :=
  repeat match goal with
         | |- context [if ?b then _ else _] => destruct b eqn:?
         | |- context [match ?x with Some _ => _ | None => _ end] => destruct x eqn:?
         end.

Lemma prepare_type w self a : type (send_activity_prepare w self a) = type a.
Proof. unfold send_activity_prepare. split_ifs; reflexivity. Qed.

Lemma prepare_text w self a : text (send_activity_prepare w self a) = text a.
Proof. unfold send_activity_prepare. split_ifs; reflexivity. Qed.

Lemma prepare_attachments w self a :
  attachments (send_activity_prepare w self a) = attachments a.
Proof. unfold send_activity_prepare. split_ifs; reflexivity. Qed.

Lemma prepare_stream_type w self a :
  stream_type (channel_data (send_activity_prepare w self a)) =
  stream_type (channel_data a).
Proof. unfold send_activity_prepare. split_ifs; reflexivity. Qed.

Lemma prepare_stream_sequence w self a :
  stream_sequence (channel_data (send_activity_prepare w self a)) =
  stream_sequence (channel_data a).
Proof. unfold send_activity_prepare. split_ifs; reflexivity. Qed.

Lemma prepare_stream_id w self a :
  truthy (_stream_id (objs w self)) = true ->
  stream_id (channel_data (send_activity_prepare w self a)) = _stream_id (objs w self).
Proof. intros H. unfold send_activity_prepare. rewrite H. split_ifs; reflexivity. Qed.

Lemma prepare_feedback w self a :
  feedback_loop_enabled (channel_data a) = None ->
  feedback_loop_type (channel_data a) = None ->
  feedback_loop_enabled (channel_data (send_activity_prepare w self a)) = None \/
  feedback_loop_type (channel_data (send_activity_prepare w self a)) = None.
Proof.
  intros H1 H2. unfold send_activity_prepare.
  split_ifs; simpl; auto; try discriminate.
Qed.

Lemma prepare_sequence_of w self a :
  sequence_of (send_activity_prepare w self a) = sequence_of a.
Proof. unfold sequence_of. now rewrite prepare_stream_sequence. Qed.

Lemma is_final_prepared w self c a :
  is_final (c, send_activity_prepare w self a) =
  match stream_type (channel_data a) with Final => true | _ => false end.
Proof. unfold is_final. simpl. now rewrite prepare_stream_type. Qed.

(** ** One step at a time *)

Ltac unfold_engine :=
  unfold step, call, end_stream, queue_text_chunk, queue_informative_update,
    queue_next_chunk, wait_for_queue, queue_activity, drain_queue, set_citations,
    set_attachments, set_feedback_loop, set_feedback_loop_type,
    set_sensitivity_label, set_generated_by_ai_label, _drain_queue, run_factory,
    _format_next_chunk, send_activity_finish, bind, ret, raise, read, update,
    modify in *.

Ltac innermost t :=
  match t with
  | context [match ?x with _ => _ end] => innermost x
  | _ => t
  end.

Ltac case_split :=
  match goal with
  | |- context [match ?x with _ => _ end] =>
      let y := innermost x in
      let E := fresh "E" in
      destruct y eqn:E
  end.

(** Unfold the engine at instance equation [Ei] and split on every test the
    code makes. *)
Ltac normalise Ei :=
  repeat progress (cbv beta zeta in *; simpl in *; rewrite ?upd_same, ?Ei in *).

Ltac crunch Ei :=
  unfold_engine; normalise Ei; repeat (case_split; normalise Ei).

Ltac by_cases self w e :=
  let Ei := fresh "Ei" in
  destruct (objs w self)
    as [ctx ns sid msg att ended cit lab efl flt ail task cq] eqn:Ei;
  destruct e as [[]| | | |]; crunch Ei.

Ltac use_queue :=
  try match goal with
      | E : cls_queue _ = _ |- _ => rewrite E in *
      end.

Ltac open_jobs :=
  repeat match goal with
         | H : Forall (job_ok _) (_ :: _) |- _ => inversion H; clear H; subst
         | H : job_ok _ (JConst _) |- _ => simpl in H
         | H : job_ok _ (JFormatNextChunk _) |- _ => simpl in H; subst
         end.

Lemma informative_stream_type a :
  informative_shape a -> stream_type (channel_data a) = Informative.
Proof. now intros (_ & _ & _ & n & ->). Qed.

Ltac prepared :=
  rewrite ?is_final_prepared, ?prepare_type, ?prepare_stream_type,
    ?prepare_stream_sequence, ?prepare_sequence_of in *.

Lemma delivery_ok_prepared w self c a :
  (informative_shape a \/
   (type a = Typing /\ exists n, channel_data a = new_channel_data Streaming (Some n)) \/
   (type a = Message /\ channel_data a = new_channel_data Final None)) ->
  delivery_ok (c, send_activity_prepare w self a).
Proof.
  intros H. unfold delivery_ok, is_final. simpl. prepared.
  assert (Hfb : feedback_loop_enabled (channel_data a) = None /\
                feedback_loop_type (channel_data a) = None).
  { destruct H as [(_ & _ & _ & n & ->) | [(_ & n & ->) | (_ & ->)]]; now simpl. }
  destruct Hfb as [Hf1 Hf2].
  split; [|split]; [| |now apply prepare_feedback].
  - destruct H as [(_ & _ & _ & n & ->) | [(_ & n & ->) | (-> & ->)]];
      simpl; intros; try discriminate; auto.
  - destruct H as [(-> & _ & _ & n & ->) | [(-> & n & ->) | (_ & ->)]];
      simpl; intros; try discriminate; eauto.
Qed.

Ltac use_instance :=
  try match goal with
      | Ei : objs _ _ = _ |- _ => rewrite ?upd_same, ?Ei in *
      end.

Ltac split_bools :=
  repeat match goal with
         | H : context [if ?b then _ else _] |- _ => destruct b eqn:?; simpl in H
         | |- context [if ?b then _ else _] => destruct b eqn:?; simpl
         end.

Lemma Inv_step self w e : Inv self w -> Inv self (step self w e).
Proof.
  intros [Hj Hg Hf Hs].
  by_cases self w e.
  all: try (constructor; simpl; use_instance; simpl; assumption).
  all: use_queue; open_jobs.
  all: constructor; simpl; use_instance; use_queue; simpl.
  all: try assumption.
  all: try (apply Forall_app; split; [assumption|]; constructor; [|constructor]).
  all: try (apply delivery_ok_prepared; simpl; eauto 8; fail).
  all: try (simpl; unfold informative_shape; simpl; eauto 8; fail).
  all: unfold count_chunks, count_final in *;
       rewrite ?filter_app, ?length_app in *; simpl in *; prepared;
       repeat match goal with
              | H : informative_shape _ |- _ =>
                  rewrite (informative_stream_type _ H) in *
              end;
       simpl in *; split_bools; subst; simpl in *; try discriminate; lia.
Qed.

Lemma Inv_fresh running context :
  Inv (first_engine running context) (fresh_exchange running context).
Proof. constructor; simpl; auto. Qed.

Lemma Inv_exchange self events : forall w, Inv self w -> Inv self (exchange self w events).
Proof.
  induction events as [|e events IH]; intros w H; simpl; auto using Inv_step.
Qed.

(** ** The ended flag never goes back *)

Ltac upd_cases :=
  repeat (unfold upd in *; simpl in *;
          match goal with
          | |- context [Nat.eqb ?a ?b] =>
              let E := fresh "E" in
              destruct (Nat.eqb a b) eqn:E;
              [apply Nat.eqb_eq in E; subst |]
          end).

Lemma ended_step s self w e :
  _ended (objs w self) = true -> _ended (objs (step s w e) self) = true.
Proof.
  intros H. by_cases s w e; auto.
  all: upd_cases; use_instance; simpl in *; auto.
Qed.

Lemma ended_run schedule : forall self w,
  _ended (objs w self) = true -> _ended (objs (run w schedule) self) = true.
Proof.
  induction schedule as [|[s e] schedule IH]; intros self w H; simpl; auto.
  apply IH. now apply ended_step.
Qed.

Lemma ended_exchange events : forall self w,
  _ended (objs w self) = true -> _ended (objs (exchange self w events) self) = true.
Proof.
  induction events as [|e events IH]; intros self w H; simpl; auto.
  apply IH. now apply ended_step.
Qed.

(** ** Sequence numbers *)

Lemma perm_tail (A B C : list Z) x :
  Permutation (A ++ B) C -> Permutation (A ++ B ++ [x]) (C ++ [x]).
Proof. intros H. rewrite app_assoc. now apply Permutation_app_tail. Qed.

Lemma perm_mid (A B C : list Z) x :
  Permutation (A ++ B) C -> Permutation ((A ++ [x]) ++ B) (C ++ [x]).
Proof.
  intros H. rewrite <- app_assoc. simpl.
  rewrite <- Permutation_middle, <- H. apply Permutation_cons_append.
Qed.

Ltac sequences :=
  rewrite ?sent_sequences_app, ?job_sequences_app in *; simpl in *; prepared;
  unfold sequence_of in *; simpl in *; rewrite ?app_nil_r in *.

Lemma Numbered_step self w e :
  Inv self w -> Numbered self w -> Numbered self (step self w e).
Proof.
  intros [Hj _ _ _] (Hl & n & Hns & Hp).
  by_cases self w e.
  all: use_queue; open_jobs.
  all: unfold Numbered; simpl; use_instance; use_queue; simpl.
  all: try congruence.
  all: split; [assumption|].
  all: try (exists n; split; [assumption|]; assumption).
  all: sequences.
  all: try (exists n; split; [lia|]; rewrite <- ?app_assoc; simpl; assumption).
  all: exists (S n); split; [lia|]; rewrite Zseq_S; try subst ns;
       first [now apply perm_tail | now apply perm_mid].
Qed.

Lemma Numbered_fresh context :
  Numbered (first_engine true context) (fresh_exchange true context).
Proof. split; [reflexivity|]. exists 0%nat. split; [reflexivity | constructor]. Qed.

Lemma Numbered_exchange self events : forall w,
  Inv self w -> Numbered self w ->
  Inv self (exchange self w events) /\ Numbered self (exchange self w events).
Proof.
  induction events as [|e events IH]; intros w Hi Hn; simpl; auto.
  apply IH; auto using Inv_step, Numbered_step.
Qed.






(** ** The drain task keeps up with the queue, and finishes *)

Lemma Live_step self w e :
  Live self w -> is_failure e = false -> Live self (step self w e).
Proof.
  intros (Hl & Hq) He.
  by_cases self w e.
  all: try discriminate.
  all: unfold Live; simpl; use_instance; simpl.
  all: try congruence.
  all: split; [assumption|]; try assumption.
  all: try (intros _; discriminate).
  all: try (intros H; exfalso; apply H; assumption).
  all: rewrite E in Hq; intros H; apply Hq;
       intros H'; apply H; rewrite H'; reflexivity.
Qed.

Lemma Live_fresh context :
  Live (first_engine true context) (fresh_exchange true context).
Proof. split; [reflexivity|]. intros H. now elim H. Qed.

Lemma Live_exchange self events : forall w,
  Live self w -> existsb is_failure events = false -> Live self (exchange self w events).
Proof.
  induction events as [|e events IH]; intros w H Hf; simpl in *; auto.
  apply orb_false_elim in Hf. destruct Hf as [Hf1 Hf2].
  apply IH; auto using Live_step.
Qed.

Lemma next_task_event_succeeds t : is_failure (next_task_event t) = false.
Proof. now destruct t. Qed.

Lemma remaining_step self w t :
  _queue_sync (objs w self) = Some t ->
  (remaining self (step self w (next_task_event t)) < remaining self w)%nat.
Proof.
  intros H. unfold remaining.
  destruct (objs w self)
    as [ctx ns sid msg att ended cit lab efl flt ail task cq] eqn:Ei.
  simpl in H. subst task. destruct t; simpl; crunch Ei; use_queue; simpl; lia.
Qed.

Lemma settle_idle self : forall fuel w,
  (remaining self w <= fuel)%nat ->
  _queue_sync (objs (settle self fuel w) self) = None.
Proof.
  induction fuel as [|fuel IH]; intros w H; simpl.
  - unfold remaining in H. destruct (_queue_sync (objs w self)) as [[]|]; auto; lia.
  - destruct (_queue_sync (objs w self)) as [t|] eqn:E; auto.
    apply IH. pose proof (remaining_step self w t E). lia.
Qed.

Lemma settle_preserves self (P : World -> Prop) :
  (forall w e, is_failure e = false -> P w -> P (step self w e)) ->
  forall fuel w, P w -> P (settle self fuel w).
Proof.
  intros Hstep. induction fuel as [|fuel IH]; intros w H; simpl; auto.
  destruct (_queue_sync (objs w self)) as [t|]; auto.
  apply IH, Hstep; auto using next_task_event_succeeds.
Qed.



(** When the stream has ended and the engine is idle with nothing queued,
    the final message is on the wire. *)
Lemma final_sent_when_idle self w :
  Inv self w -> Live self w -> _ended (objs w self) = true ->
  _queue_sync (objs w self) = None -> count_final (sent w) = 1%nat.
Proof.
  intros [_ Hg Hf _] [_ Hq] He Ht.
  rewrite Hf, He. simpl.
  destruct (cls_queue w) as [|j q] eqn:E.
  - unfold count_chunks in Hg. simpl in Hg.
    destruct (_chunk_queued (objs w self)); [discriminate | reflexivity].
  - exfalso. apply Hq; [discriminate | assumption].
Qed.

Lemma final_count_le self w : Inv self w -> (count_final (sent w) <= 1)%nat.
Proof.
  intros [_ _ Hf _]. rewrite Hf.
  destruct (_ended (objs w self) && negb (_chunk_queued (objs w self))); lia.
Qed.

(** ** Exactly one terminal message *)

(** While no send has failed, [end_stream] finds a drain task to wait for. *)
Lemma end_stream_waits self w :
  Inv self w -> Live self w -> _ended (objs w self) = false ->
  fst (end_stream self w) = Returned AwaitDrain.
Proof.
  intros [_ Hg _ _] [Hl Hq] He.
  destruct (objs w self)
    as [ctx ns sid msg att ended cit lab efl flt ail task cq] eqn:Ei.
  simpl in He. subst ended. crunch Ei; auto; try congruence.
  exfalso. apply Hq; auto.
  intros H. rewrite H in Hg. discriminate.
Qed.

(** C1, as amended.  In one exchange at most one activity of kind "final"
    is ever handed to the transport, whatever the producer and the transport
    do.  The ended flag, once set, stays set, and [end_stream] on an ended
    stream raises and changes nothing.  When the engine runs inside an event
    loop and no send has failed: [end_stream] waits for the drain task; once
    the stream has ended and the drain task is over, exactly one final message
    has been sent; and the drain task does get there, since left to itself on
    a transport that succeeds it finishes within [remaining] events. *)
Theorem one_final_message running context events :
  let self := first_engine running context in
  let w := exchange self (fresh_exchange running context) events in
  (count_final (sent w) <= 1)%nat /\
  (forall e, _ended (objs w self) = true ->
             _ended (objs (step self w e) self) = true /\
             end_stream self w = (Raised stream_already_ended, w)) /\
  (running = true -> existsb is_failure events = false ->
   (_ended (objs w self) = false -> fst (end_stream self w) = Returned AwaitDrain) /\
   (_ended (objs w self) = true ->
    (_queue_sync (objs w self) = None -> count_final (sent w) = 1%nat) /\
    let w' := settle self (remaining self w) w in
    _queue_sync (objs w' self) = None /\ count_final (sent w') = 1%nat)).
Proof.
  intros self w.
  assert (Hi : Inv self w) by apply Inv_exchange, Inv_fresh.
  split; [now apply final_count_le with self|]. split.
  - intros e He. split; [now apply ended_step|].
    unfold end_stream, bind, read. now rewrite He.
  - intros -> Hf.
    assert (Hl : Live self w) by (apply Live_exchange; [apply Live_fresh | assumption]).
    split; [now apply end_stream_waits|].
    intros He.
    split; [now apply final_sent_when_idle|].
    set (w' := settle self (remaining self w) w).
    assert (Ht : _queue_sync (objs w' self) = None) by now apply settle_idle.
    split; [assumption|].
    apply final_sent_when_idle with self; auto.
    + apply settle_preserves; auto using Inv_step.
    + apply settle_preserves; auto using Live_step.
    + apply settle_preserves; auto using ended_step.
Qed.

(** ** After a failed send *)

(** With no drain task, only a queueing call touches the queue or the
    wire. *)
Lemma idle_quiet_step self w e :
  _queue_sync (objs w self) = None -> is_queueing e = false ->
  cls_queue (step self w e) = cls_queue w /\
  sent (step self w e) = sent w /\
  _queue_sync (objs (step self w e) self) = None.
Proof.
  intros Ht He. by_cases self w e; try discriminate; use_instance; simpl; auto.
Qed.

Lemma idle_quiet_exchange self events : forall w,
  _queue_sync (objs w self) = None -> forallb (fun e => negb (is_queueing e)) events = true ->
  cls_queue (exchange self w events) = cls_queue w /\
  sent (exchange self w events) = sent w /\
  _queue_sync (objs (exchange self w events) self) = None.
Proof.
  induction events as [|e events IH]; intros w Ht He; simpl in *; auto.
  apply andb_prop in He. destruct He as [He1 He2].
  apply negb_true_iff in He1.
  destruct (idle_quiet_step self w e Ht He1) as (H1 & H2 & H3).
  destruct (IH (step self w e) H3 He2) as (H4 & H5 & H6).
  repeat split; congruence.
Qed.

(** C8, as amended.  When a send fails, the drain task that made it stops
    there: the engine is marked idle, nothing more is popped, materialised
    or sent by that task, and the jobs queued behind the failed one stay in
    the queue, unsent, for as long as the producer makes no further queueing
    call. *)
Theorem failed_send_stops_drain self w events :
  _queue_sync (objs w self) = Some AwaitingSend ->
  forallb (fun e => negb (is_queueing e)) events = true ->
  let w1 := step self w SendRaises in
  _queue_sync (objs w1 self) = None /\
  cls_queue w1 = cls_queue w /\
  sent w1 = sent w /\
  cls_queue (exchange self w1 events) = cls_queue w /\
  sent (exchange self w1 events) = sent w /\
  _queue_sync (objs (exchange self w1 events) self) = None.
Proof.
  intros Ht He w1.
  assert (H : _queue_sync (objs w1 self) = None /\
              cls_queue w1 = cls_queue w /\ sent w1 = sent w).
  { unfold w1, step. rewrite Ht. unfold modify. simpl.
    now rewrite upd_same. }
  destruct H as (H1 & H2 & H3).
  destruct (idle_quiet_exchange self events w1 H1 He) as (H4 & H5 & H6).
  repeat split; congruence.
Qed.

(** ** Sequence numbers on the wire *)



(** ** Coalescing of text chunks *)

Lemma chunk_step self w text citations :
  _ended (objs w self) = false ->
  let w' := step self w (Produce (QueueTextChunk text citations)) in
  _ended (objs w' self) = false /\
  _chunk_queued (objs w' self) = true /\
  _message (objs w' self) = format_citations_response (_message (objs w self) ++ text)%string.
Proof.
  intros He.
  destruct (objs w self)
    as [ctx ns sid msg att ended cit lab efl flt ail task cq] eqn:Ei.
  simpl in He. subst ended. crunch Ei; auto.
Qed.

Lemma chunk_calls self chunks : forall w,
  _ended (objs w self) = false ->
  let w' := exchange self w (map chunk_call chunks) in
  _ended (objs w' self) = false /\
  (chunks <> [] -> _chunk_queued (objs w' self) = true) /\
  _message (objs w' self) =
  fold_left (fun m c => format_citations_response (m ++ fst c)%string) chunks
    (_message (objs w self)).
Proof.
  induction chunks as [|[text citations] chunks IH]; intros w He.
  - repeat split; auto; intros H; now elim H.
  - destruct (chunk_step self w text citations He) as (H1 & H2 & H3).
    destruct (IH _ H1) as (H4 & H5 & H6).
    change (exchange self w (map chunk_call ((text, citations) :: chunks)))
      with (exchange self (step self w (Produce (QueueTextChunk text citations)))
              (map chunk_call chunks)).
    cbv zeta. split; [exact H4|]. split.
    + intros _. destruct chunks; [exact H2 | apply H5; discriminate].
    + rewrite H6, H3. reflexivity.
Qed.

(** Whenever the flush job is dequeued, the activity it makes carries the
    whole text accumulated by then. *)
Lemma flush_carries_message self w :
  text (fst (_format_next_chunk self w)) = _message (objs w self).
Proof.
  destruct (objs w self)
    as [ctx ns sid msg att ended cit lab efl flt ail task cq] eqn:Ei.
  crunch Ei; reflexivity.
Qed.

(** C3.  After any number of [queue_text_chunk] calls, at least one, made in
    a row before the drain task dequeues anything, the queue holds exactly one
    flush job; the accumulated text is the earlier text with every chunk
    appended (and normalised) in turn, and the job, materialised at that
    point, is a "streaming" activity carrying exactly that text. *)
Theorem text_chunks_coalesce running context events chunks :
  let self := first_engine running context in
  let w := exchange self (fresh_exchange running context) events in
  _ended (objs w self) = false ->
  chunks <> [] ->
  let w' := exchange self w (map chunk_call chunks) in
  count_chunks (cls_queue w') = 1%nat /\
  _message (objs w' self) =
  fold_left (fun m c => format_citations_response (m ++ fst c)%string) chunks
    (_message (objs w self)) /\
  stream_type (channel_data (fst (_format_next_chunk self w'))) = Streaming /\
  text (fst (_format_next_chunk self w')) = _message (objs w' self).
Proof.
  intros self w He Hc w'.
  assert (Hi : Inv self w') by (do 2 apply Inv_exchange; apply Inv_fresh).
  destruct (chunk_calls self chunks w He) as (H1 & H2 & H3).
  fold w' in H1, H2, H3.
  split; [|split; [exact H3|]].
  - rewrite (inv_guard _ _ Hi), (H2 Hc). reflexivity.
  - clear H2 H3 Hi. revert H1. generalize w'. clear. intros w H1.
    destruct (objs w self)
      as [ctx ns sid msg att ended cit lab efl flt ail task cq] eqn:Ei.
    simpl in H1. subst ended. crunch Ei. split; reflexivity.
Qed.

(** ** After the end of the stream *)

Lemma end_stream_ends self w : _ended (objs (snd (end_stream self w)) self) = true.
Proof.
  destruct (objs w self)
    as [ctx ns sid msg att ended cit lab efl flt ail task cq] eqn:Ei.
  crunch Ei; auto.
Qed.

(** C4.  Once [end_stream] has been invoked, whatever happens next, each of
    [queue_informative_update], [queue_text_chunk] and [end_stream] raises
    "The stream has already ended." at once and returns the world it was
    given: no job is queued and no attribute changes. *)
Theorem ended_stream_rejects_calls self w schedule text citations :
  let w' := run (snd (end_stream self w)) schedule in
  queue_informative_update self text w' = (Raised stream_already_ended, w') /\
  queue_text_chunk self text citations w' = (Raised stream_already_ended, w') /\
  end_stream self w' = (Raised stream_already_ended, w').
Proof.
  intros w'.
  assert (He : _ended (objs w' self) = true) by apply ended_run, end_stream_ends.
  unfold queue_informative_update, queue_text_chunk, end_stream, bind, read.
  rewrite He. repeat split.
Qed.

(** ** The stream identifier *)

Lemma truthy_some ident : ident <> "" -> truthy (Some ident) = true.
Proof.
  intros H. simpl. destruct (String.eqb ident "") eqn:E; auto.
  apply String.eqb_eq in E. contradiction.
Qed.

Ltac stamps :=
  try (split; simpl; use_instance; simpl; assumption);
  try congruence;
  (split; [upd_cases; use_instance; simpl; congruence|]);
  (eexists; split; [reflexivity|]; constructor; [|constructor]);
  unfold stamped; simpl;
  rewrite prepare_stream_id; simpl;
  upd_cases; use_instance; simpl; auto.

Lemma stream_id_drain self w ident :
  _stream_id (objs w self) = Some ident -> ident <> "" ->
  _stream_id (objs (_drain_queue self w) self) = Some ident /\
  exists later, sent (_drain_queue self w) = sent w ++ later /\ Forall (stamped ident) later.
Proof.
  intros Hid Hne.
  assert (Ht : truthy (_stream_id (objs w self)) = true)
    by (rewrite Hid; now apply truthy_some).
  assert (Hnil : exists later, sent w = sent w ++ later /\ Forall (stamped ident) later)
    by (exists []; split; [now rewrite app_nil_r | constructor]).
  destruct (objs w self)
    as [ctx ns sid msg att ended cit lab efl flt ail task cq] eqn:Ei.
  crunch Ei.
  all: stamps.
Qed.

Lemma stream_id_step self w e ident :
  _stream_id (objs w self) = Some ident -> ident <> "" ->
  _stream_id (objs (step self w e) self) = Some ident /\
  exists later, sent (step self w e) = sent w ++ later /\ Forall (stamped ident) later.
Proof.
  intros Hid Hne.
  assert (Ht : truthy (_stream_id (objs w self)) = true)
    by (rewrite Hid; now apply truthy_some).
  assert (Hnil : exists later, sent w = sent w ++ later /\ Forall (stamped ident) later)
    by (exists []; split; [now rewrite app_nil_r | constructor]).
  by_cases self w e.
  all: stamps.
Qed.

Lemma stream_id_exchange self ident events : forall w,
  _stream_id (objs w self) = Some ident -> ident <> "" ->
  _stream_id (objs (exchange self w events) self) = Some ident /\
  exists later,
    sent (exchange self w events) = sent w ++ later /\ Forall (stamped ident) later.
Proof.
  induction events as [|e events IH]; intros w Hid Hne; simpl.
  - split; auto. exists []. split; [now rewrite app_nil_r | constructor].
  - destruct (stream_id_step self w e ident Hid Hne) as (H1 & l1 & H2 & H3).
    destruct (IH _ H1 Hne) as (H4 & l2 & H5 & H6).
    split; auto. exists (l1 ++ l2). split.
    + now rewrite H5, H2, app_assoc.
    + apply Forall_app. auto.
Qed.

(** C5.  When the pause after a send is over, no identifier is recorded yet
    and the send returned a response with a non-empty identifier, that
    identifier is recorded; from then on it is never replaced, and every
    activity the engine sends afterwards carries it in its channel data. *)
Theorem stream_id_recorded_and_stamped self w r ident events :
  _queue_sync (objs w self) = Some (Sleeping (Some r)) ->
  truthy (_stream_id (objs w self)) = false ->
  response_id r = Some ident ->
  ident <> "" ->
  let w1 := modify self (send_activity_finish (Some r)) w in
  let w' := exchange self w (SleepEnds :: events) in
  _stream_id (objs w1 self) = Some ident /\
  _stream_id (objs w' self) = Some ident /\
  exists later, sent w' = sent w ++ later /\ Forall (stamped ident) later.
Proof.
  intros Ht Hs Hr Hne w1 w'.
  assert (H1 : _stream_id (objs w1 self) = Some ident).
  { unfold w1, modify, send_activity_finish. simpl.
    now rewrite upd_same, Hs. }
  split; [exact H1|].
  assert (Hw : w' = exchange self (_drain_queue self w1) events).
  { unfold w'. change (exchange self w (SleepEnds :: events))
      with (exchange self (step self w SleepEnds) events).
    f_equal. unfold step. now rewrite Ht. }
  rewrite Hw. clear Hw.
  destruct (stream_id_drain self w1 ident H1 Hne) as (H2 & l1 & H3 & H4).
  destruct (stream_id_exchange self ident events _ H2 Hne) as (H5 & l2 & H6 & H7).
  split; [exact H5|].
  exists (l1 ++ l2). split.
  - rewrite H6, H3. unfold w1. simpl. now rewrite app_assoc.
  - apply Forall_app. auto.
Qed.

(** ** The citations argument of [queue_text_chunk] *)

Lemma citations_frame s x w e :
  is_set_citations e = false ->
  read_citations (step s w e) (objs (step s w e) x) = read_citations w (objs w x).
Proof.
  intros He. by_cases s w e; try discriminate; auto.
  all: unfold read_citations; simpl; upd_cases; use_instance; simpl; auto.
Qed.

(** C10.  [queue_text_chunk] does the same with and without its citations
    argument: the same outcome and the same world, hence the same activities
    sent under every later schedule.  The citation list of every engine is
    the same after the call as before, and after any event other than a
    [set_citations] call. *)
Theorem queue_text_chunk_ignores_citations self text citations w schedule :
  let with_citations := queue_text_chunk self text (Some citations) w in
  let without := queue_text_chunk self text None w in
  with_citations = without /\
  sent (run (snd with_citations) schedule) = sent (run (snd without) schedule) /\
  (forall x,
     read_citations (snd with_citations) (objs (snd with_citations) x) =
     read_citations w (objs w x)) /\
  (forall e x,
     is_set_citations e = false ->
     read_citations (step self w e) (objs (step self w e) x) =
     read_citations w (objs w x)).
Proof.
  intros wc wn. split; [reflexivity|]. split; [reflexivity|]. split.
  - intros x.
    apply (citations_frame self x w (Produce (QueueTextChunk text (Some citations)))).
    reflexivity.
  - intros e x He. now apply citations_frame.
Qed.

(** ** What [send_activity] attaches *)

(** Before the end of the stream: the citations the text uses, and no
    feedback or label decoration. *)
Lemma send_before_end w self a :
  _ended (objs w self) = false ->
  let i := objs w self in
  let sent_activity := send_activity_prepare w self a in
  feedback_loop_enabled (channel_data sent_activity) =
  feedback_loop_enabled (channel_data a) /\
  feedback_loop_type (channel_data sent_activity) = feedback_loop_type (channel_data a) /\
  (read_citations w i <> [] ->
   exists entity,
     entities sent_activity =
     [entity;
      AIEntity []
        match get_used_citations (_message i) (read_citations w i) with
        | Some l => l
        | None => []
        end None]) /\
  (read_citations w i = [] -> exists entity, entities sent_activity = [entity]).
Proof.
  intros He. cbv zeta. unfold send_activity_prepare. rewrite He.
  destruct (read_citations w (objs w self)) eqn:Ec; simpl;
    destruct (truthy (_stream_id (objs w self))); simpl; repeat split; eauto;
    try congruence; intros H; now elim H.
Qed.

(** After the end of the stream: the feedback fields, never both, and with
    the label enabled the whole citation list and the sensitivity label. *)
Lemma send_after_end w self a :
  _ended (objs w self) = true ->
  feedback_loop_enabled (channel_data a) = None ->
  feedback_loop_type (channel_data a) = None ->
  let i := objs w self in
  let sent_activity := send_activity_prepare w self a in
  feedback_loop_enabled (channel_data sent_activity) =
  (if _enable_feedback_loop i then Some true else None) /\
  feedback_loop_type (channel_data sent_activity) =
  (if _enable_feedback_loop i then None else _feedback_loop_type i) /\
  exists entity,
    entities sent_activity =
    entity ::
    (if _enable_generated_by_ai_label i
     then [AIEntity ["AIGeneratedContent"] (read_citations w i) (_sensitivity_label i)]
     else []).
Proof.
  intros He H1 H2. cbv zeta. unfold send_activity_prepare. rewrite He.
  rewrite andb_false_r.
  destruct (truthy (_stream_id (objs w self))), (_enable_feedback_loop (objs w self)),
    (_feedback_loop_type (objs w self)), (_enable_generated_by_ai_label (objs w self));
    simpl; repeat split; eauto.
Qed.

(** The final message is materialised and sent in one go, under the ended
    flag: it gets the decorations of [send_after_end]. *)
Lemma final_only_after_end self w :
  stream_type (channel_data (fst (_format_next_chunk self w))) = Final ->
  _ended (objs (snd (_format_next_chunk self w)) self) = true.
Proof.
  destruct (objs w self)
    as [ctx ns sid msg att ended cit lab efl flt ail task cq] eqn:Ei.
  crunch Ei; auto; discriminate.
Qed.

(** On every activity of an exchange at most one of the two feedback fields
    is present. *)
Lemma feedback_fields_exclusive running context events d :
  let self := first_engine running context in
  In d (sent (exchange self (fresh_exchange running context) events)) ->
  feedback_loop_enabled (channel_data (snd d)) = None \/
  feedback_loop_type (channel_data (snd d)) = None.
Proof.
  intros self Hd.
  assert (Hi : Inv self (exchange self (fresh_exchange running context) events))
    by apply Inv_exchange, Inv_fresh.
  pose proof (inv_sent _ _ Hi) as Hs. rewrite Forall_forall in Hs.
  now destruct (Hs d Hd) as (_ & _ & H).
Qed.

(** C7, where the code departs from it.  The decorations are chosen by the
    ended flag of the engine, not by the kind of the activity: an informative
    update still queued when [end_stream] is called is sent as a typing
    activity of kind "informative" with the feedback flag and the
    generated-by-AI entity with the sensitivity label. *)
Theorem decorations_on_update_sent_after_end label update :
  let self := first_engine true 7 in
  let w :=
    exchange self (fresh_exchange true 7)
      [Produce (SetFeedbackLoop true); Produce (SetSensitivityLabel label);
       Produce (SetGeneratedByAiLabel true); Produce (QueueInformativeUpdate update);
       Produce EndStream; TaskStarts] in
  exists d,
    sent w = [d] /\
    is_final d = false /\
    type (snd d) = Typing /\
    channel_data (snd d) =
    with_cd_feedback_loop_enabled (Some true) (new_channel_data Informative (Some 1)) /\
    entities (snd d) =
    [StreamingEntity None (Some 1) Informative;
     AIEntity ["AIGeneratedContent"] [] (Some label)].
Proof.
  eexists. split; [cbv; reflexivity|]. repeat split.
Qed.

(** C6, where the code departs from it.  Three citations are registered and
    the label is enabled.  The text chunk sent before the end carries the
    citations its text uses.  An informative update queued before
    [end_stream], during the pause of the drain task, and sent after it is not
    final, and it carries the whole list under the generated-by-AI entity
    instead of the citations the text uses. *)
Theorem citations_on_update_sent_after_end c1 c2 c3 chunk update :
  let self := first_engine true 7 in
  let w :=
    exchange self (fresh_exchange true 7)
      [Produce (SetCitations [c1; c2; c3]); Produce (SetGeneratedByAiLabel true);
       Produce (QueueTextChunk chunk None); TaskStarts;
       SendReturns (Some {| response_id := Some "stream-1" |});
       Produce (QueueInformativeUpdate update); Produce EndStream; SleepEnds] in
  let all := read_citations w (objs w self) in
  let used :=
    match get_used_citations (_message (objs w self)) all with
    | Some l => l
    | None => []
    end in
  List.length all = 3%nat /\
  map (fun d => (is_final d, entities (snd d))) (sent w) =
  [(false, [StreamingEntity None (Some 1) Streaming; AIEntity [] used None]);
   (false, [StreamingEntity (Some "stream-1") (Some 2) Informative;
            AIEntity ["AIGeneratedContent"] all None])].
Proof. split; reflexivity. Qed.

(** ** Two engines *)

(** What the class-level declarations do not share: the citations and the
    attachments an engine reads are untouched by whatever happens on another
    engine, as long as the class-level citation list is empty, as it is when
    the module is loaded. *)
Lemma other_engine_lists_unchanged a b w e :
  a <> b -> cls_citations w = [] ->
  let w' := step a w e in
  cls_citations w' = [] /\
  cls_attachments w' = cls_attachments w /\
  read_citations w' (objs w' b) = read_citations w (objs w b) /\
  read_attachments w' (objs w' b) = read_attachments w (objs w b).
Proof.
  intros Hab Hc. by_cases a w e.
  all: unfold read_citations, read_attachments; simpl; rewrite ?Hc; simpl.
  all: rewrite ?upd_other by auto; auto.
  all: try congruence.
  all: repeat split; auto.
  all: upd_cases; use_instance; simpl; rewrite ?Hc; auto; try congruence.
Qed.

(** C9, where the code departs from it.  [_queue] is one list for the whole
    class.  Engine [a] queues two updates: the queue engine [b] reads now
    holds them, though [b] has made no call.  Engine [b] queues one of its
    own.  The drain task of [a] sends the first update of [a] and waits for
    the transport; the drain task of [b] then pops the second update of [a]
    and sends it on the turn context of [b]. *)
Theorem queue_shared_between_instances :
  let (a, w1) := __init__ 1 (module_loaded true) in
  let (b, w2) := __init__ 2 w1 in
  let w3 :=
    run w2 [(a, Produce (QueueInformativeUpdate "first for a"));
            (a, Produce (QueueInformativeUpdate "second for a"))] in
  let w4 :=
    run w3 [(b, Produce (QueueInformativeUpdate "for b"));
            (a, TaskStarts); (b, TaskStarts)] in
  a <> b /\
  cls_queue w2 = [] /\
  List.length (cls_queue w3) = 2%nat /\
  map (fun d => (fst d, text (snd d))) (sent w4) =
  [(1%nat, "first for a"); (2%nat, "second for a")].
Proof. simpl. repeat split. discriminate. Qed.

(** * Further properties of the engine *)

(** ** Citations *)

Lemma append_citations_app : forall citations l p,
  exists added,
    append_citations l p citations = l ++ added /\
    List.length added = List.length citations /\
    map position added = map (fun k => p + Z.of_nat k) (seq 1 (List.length citations)) /\
    map (fun c => abstract (appearance c)) added =
    map (fun c => snippet (content c) 477) citations /\
    Forall2 named_after citations added.
Proof.
  induction citations as [|c citations IH]; intros l p; simpl.
  - exists []. rewrite app_nil_r. repeat split. constructor.
  - destruct (IH (l ++ [ {| position := p + 1;
                           appearance :=
                             {| name := title_or_document (title c) (p + 1);
                                abstract := snippet (content c) 477 |} |} ]) (p + 1))
      as (added & H1 & H2 & H3 & H4 & H5).
    eexists (_ :: added). rewrite H1, <- app_assoc. simpl.
    split; [reflexivity|]. split; [now rewrite H2|]. split; [|split].
    + simpl. f_equal. rewrite H3, <- (seq_shift (List.length citations) 1), map_map.
      apply map_ext. intros k. lia.
    + now rewrite H4.
    + constructor; [reflexivity | assumption].
Qed.

(** X1.  [set_citations] only appends: the citations already there are kept as
    they are, one citation is added per citation given, with the excerpt of
    its content and its title, or "Document" and its own position when it has
    none; an empty list changes nothing at all. *)
Theorem set_citations_appends self w citations :
  let w' := snd (set_citations self citations w) in
  fst (set_citations self citations w) = Returned tt /\
  (citations = [] -> w' = w) /\
  exists added,
    Property.citations w' (objs w' self) = Property.citations w (objs w self) ++ added /\
    List.length added = List.length citations /\
    map (fun c => abstract (appearance c)) added =
    map (fun c => snippet (content c) 477) citations /\
    Forall2 named_after citations added.
Proof.
  unfold Property.citations, read_citations, set_citations.
  destruct citations as [|c citations].
  - simpl. repeat split. exists []. rewrite app_nil_r. repeat split. constructor.
  - change (0 <? Z.of_nat (List.length (c :: citations))) with true. cbv iota.
    destruct (_citations (objs w self)) as [l|] eqn:E;
      [|destruct (cls_citations w) as [|c0 l0] eqn:Ec].
    + destruct (append_citations_app (c :: citations) l (Z.of_nat (List.length l)))
        as (added & H1 & H2 & _ & H4 & H5).
      rewrite H1. unfold update, modify. cbn [fst snd objs with_objs _citations with_citations].
      rewrite upd_same. cbn [_citations].
      split; [reflexivity|]. split; [discriminate|]. exists added. auto.
    + destruct (append_citations_app (c :: citations) [] 0)
        as (added & H1 & H2 & _ & H4 & H5).
      rewrite H1. unfold update, modify. cbn [fst snd objs with_objs _citations with_citations].
      rewrite upd_same. cbn [_citations].
      split; [reflexivity|]. split; [discriminate|]. exists added. auto.
    + destruct (append_citations_app (c :: citations) (c0 :: l0)
                  (Z.of_nat (List.length (c0 :: l0))))
        as (added & H1 & H2 & _ & H4 & H5).
      rewrite H1. cbn [fst snd objs with_cls_citations cls_citations]. rewrite E.
      split; [reflexivity|]. split; [discriminate|]. exists added. auto.
Qed.

Lemma Zseq_app a n :
  Zseq a ++ map (fun k => Z.of_nat a + Z.of_nat k) (seq 1 n) = Zseq (a + n).
Proof.
  induction n as [|n IH].
  - simpl. now rewrite app_nil_r, Nat.add_0_r.
  - rewrite seq_S, map_app, app_assoc, IH. simpl.
    replace (a + S n)%nat with (S (a + n)) by lia.
    rewrite Zseq_S. do 2 f_equal. lia.
Qed.

Lemma set_citations_positions self w citations :
  cls_citations w = [] ->
  let w' := snd (set_citations self citations w) in
  cls_citations w' = [] /\
  map position (read_citations w' (objs w' self)) =
  map position (read_citations w (objs w self)) ++
  map (fun k => Z.of_nat (List.length (read_citations w (objs w self))) + Z.of_nat k)
    (seq 1 (List.length citations)).
Proof.
  intros Hc. unfold read_citations, set_citations. rewrite Hc.
  destruct citations as [|c citations].
  - simpl. rewrite Hc, app_nil_r. auto.
  - change (0 <? Z.of_nat (List.length (c :: citations))) with true. cbv iota.
    destruct (_citations (objs w self)) as [l|] eqn:E.
    + destruct (append_citations_app (c :: citations) l (Z.of_nat (List.length l)))
        as (added & H1 & _ & H3 & _).
      rewrite H1. unfold update, modify.
      cbn [fst snd objs with_objs _citations with_citations cls_citations].
      rewrite upd_same. cbn [_citations with_citations].
      split; [assumption|]. now rewrite map_app, H3.
    + destruct (append_citations_app (c :: citations) [] 0)
        as (added & H1 & _ & H3 & _).
      rewrite H1. unfold update, modify.
      cbn [fst snd objs with_objs _citations with_citations cls_citations].
      rewrite upd_same. cbn [_citations with_citations].
      split; [assumption|]. now rewrite map_app, H3.
Qed.

Lemma positions_step self w e :
  cls_citations w = [] ->
  map position (read_citations w (objs w self)) =
  Zseq (List.length (read_citations w (objs w self))) ->
  cls_citations (step self w e) = [] /\
  map position (read_citations (step self w e) (objs (step self w e) self)) =
  Zseq (List.length (read_citations (step self w e) (objs (step self w e) self))).
Proof.
  intros Hc Hp.
  destruct (is_set_citations e) eqn:He.
  - destruct e as [[]| | | |]; try discriminate.
    destruct (set_citations_positions self w l Hc) as [H1 H2].
    change (step self w (Produce (SetCitations l)))
      with (snd (set_citations self l w)).
    split; [exact H1|]. rewrite H2, Hp.
    assert (Hl : List.length (read_citations (snd (set_citations self l w))
                                (objs (snd (set_citations self l w)) self)) =
                 (List.length (read_citations w (objs w self)) + List.length l)%nat).
    { rewrite <- (length_map position), H2, length_app, !length_map, length_seq.
      reflexivity. }
    rewrite Hl. apply Zseq_app.
  - split.
    + assert (Hn : self <> S self) by lia.
      now destruct (other_engine_lists_unchanged self (S self) w e Hn Hc).
    + now rewrite (citations_frame self self w e He).
Qed.

(** X2.  The positions of the citations of an engine are 1, 2, 3, ... in list
    order, after any history of calls and sends. *)
Theorem citation_positions_dense running context events :
  let self := first_engine running context in
  let w := exchange self (fresh_exchange running context) events in
  map position (Property.citations w (objs w self)) =
  Zseq (List.length (Property.citations w (objs w self))).
Proof.
  intros self w. unfold Property.citations.
  enough (H : cls_citations w = [] /\
              map position (read_citations w (objs w self)) =
              Zseq (List.length (read_citations w (objs w self)))) by apply H.
  unfold w.
  assert (H0 : cls_citations (fresh_exchange running context) = [] /\
               map position (read_citations (fresh_exchange running context)
                               (objs (fresh_exchange running context) self)) =
               Zseq (List.length (read_citations (fresh_exchange running context)
                                    (objs (fresh_exchange running context) self))))
    by (split; reflexivity).
  revert H0. generalize (fresh_exchange running context).
  induction events as [|e events IH]; intros w0 H0; [exact H0|].
  simpl. apply IH. destruct H0 as [Hc Hp]. now apply positions_step.
Qed.

(** ** The sequence counter *)

Lemma sent_sequences_length l :
  Forall delivery_ok l ->
  (List.length (sent_sequences l) + count_final l = List.length l)%nat.
Proof.
  induction 1 as [|d l (H1 & H2 & _) _ IH]; [reflexivity|].
  unfold sent_sequences, count_final, sequence_of in *. simpl.
  rewrite length_app.
  destruct (is_final d) eqn:E.
  - destruct (H1 eq_refl) as [-> _]. simpl. lia.
  - destruct (H2 eq_refl) as (_ & n & ->). simpl. lia.
Qed.

Lemma job_sequences_length self q :
  Forall (job_ok self) q ->
  (List.length (job_sequences q) + count_chunks q = List.length q)%nat.
Proof.
  induction 1 as [|j q Hj _ IH]; [reflexivity|].
  unfold job_sequences, count_chunks, sequence_of in *. simpl.
  rewrite length_app. destruct j as [a|owner]; simpl.
  - destruct Hj as (_ & _ & _ & n & Hn). rewrite Hn. simpl. lia.
  - lia.
Qed.

(** X3.  [updates_sent] is the number of updates that have been given a sequence
    number: inside an event loop, the non-final activities sent so far plus
    the informative updates still waiting in the queue. *)
Theorem updates_sent_counts running context events :
  running = true ->
  let self := first_engine running context in
  let w := exchange self (fresh_exchange running context) events in
  updates_sent (objs w self) =
  Z.of_nat ((List.length (sent w) - count_final (sent w)) +
            (List.length (cls_queue w) - count_chunks (cls_queue w))).
Proof.
  intros -> self w.
  destruct (Numbered_exchange self events (fresh_exchange true context)
              (Inv_fresh true context) (Numbered_fresh context))
    as (Hi & _ & n & Hn & Hp).
  fold w in Hi, Hn, Hp.
  pose proof (sent_sequences_length _ (inv_sent _ _ Hi)) as H1.
  pose proof (job_sequences_length _ _ (inv_jobs _ _ Hi)) as H2.
  apply Permutation_length in Hp.
  rewrite length_app, Zseq_length in Hp.
  unfold updates_sent. rewrite Hn. lia.
Qed.

Lemma next_sequence_step s x w e :
  _next_sequence (objs w x) <= _next_sequence (objs (step s w e) x).
Proof.
  by_cases s w e; try lia.
  all: upd_cases; use_instance; simpl; lia.
Qed.

(** X4.  The sequence counter of an engine never goes down, whatever happens
    on this or any other engine. *)
Theorem next_sequence_never_decreases schedule : forall w x,
  _next_sequence (objs w x) <= _next_sequence (objs (run w schedule) x).
Proof.
  induction schedule as [|[s e] schedule IH]; intros w x; simpl; [lia|].
  pose proof (next_sequence_step s x w e). pose proof (IH (step s w e) x). lia.
Qed.

(** ** Informative updates are sent in call order *)

Lemma update_texts_sent_app l1 l2 :
  update_texts_sent (l1 ++ l2) = update_texts_sent l1 ++ update_texts_sent l2.
Proof. unfold update_texts_sent. apply flat_map_app. Qed.

Lemma update_texts_queued_app q1 q2 :
  update_texts_queued (q1 ++ q2) = update_texts_queued q1 ++ update_texts_queued q2.
Proof. unfold update_texts_queued. apply flat_map_app. Qed.

Lemma update_texts_step self w e :
  Inv self w ->
  update_texts_sent (sent (step self w e)) ++ update_texts_queued (cls_queue (step self w e)) =
  (update_texts_sent (sent w) ++ update_texts_queued (cls_queue w)) ++
  accepted_updates self w [e].
Proof.
  intros [Hj _ _ _].
  by_cases self w e.
  all: use_queue; open_jobs.
  all: simpl; use_instance; use_queue; simpl; rewrite ?app_nil_r; auto.
  all: rewrite ?update_texts_sent_app, ?update_texts_queued_app; simpl;
       rewrite ?prepare_text, ?prepare_stream_type, ?app_nil_r; simpl.
  all: repeat match goal with
              | H : informative_shape _ |- _ =>
                  rewrite (informative_stream_type _ H) in *
              end.
  all: rewrite <- ?app_assoc; simpl; auto.
Qed.

(** X5.  Every informative update queued on a live stream is kept, and the
    updates go out in the order of the calls: the texts of the informative
    activities on the wire, followed by those still queued, are the texts of
    the accepted calls in call order. *)
Theorem updates_sent_in_call_order running context events :
  let self := first_engine running context in
  let w0 := fresh_exchange running context in
  let w := exchange self w0 events in
  update_texts_sent (sent w) ++ update_texts_queued (cls_queue w) =
  accepted_updates self w0 events.
Proof.
  intros self w0 w. unfold w.
  assert (H0 : update_texts_sent (sent w0) ++ update_texts_queued (cls_queue w0) = [])
    by reflexivity.
  assert (Hi : Inv self w0) by apply Inv_fresh.
  change (accepted_updates self w0 events) with ([] ++ accepted_updates self w0 events).
  rewrite <- H0. clear H0. revert Hi. generalize w0.
  induction events as [|e events IH]; intros w1 Hi.
  - simpl. now rewrite app_nil_r.
  - change (exchange self w1 (e :: events)) with (exchange self (step self w1 e) events).
    rewrite IH by now apply Inv_step.
    rewrite (update_texts_step self w1 e Hi). simpl accepted_updates.
    rewrite app_nil_r. now rewrite <- !app_assoc.
Qed.

(** ** What is on the wire *)

Lemma prepare_mirrors w self a : mirrors_channel_data (send_activity_prepare w self a).
Proof.
  unfold mirrors_channel_data, send_activity_prepare.
  split_ifs; simpl; eexists; reflexivity.
Qed.

Lemma prepare_stream_id_cases w self a :
  stream_id (channel_data a) = None ->
  forall ident,
    stream_id (channel_data (send_activity_prepare w self a)) = Some ident ->
    _stream_id (objs w self) = Some ident /\ ident <> "".
Proof.
  intros Ha ident. unfold send_activity_prepare.
  destruct (truthy (_stream_id (objs w self))) eqn:Ht.
  - split_ifs; simpl; intros H; rewrite H in *; split; auto;
      intros ->; discriminate.
  - split_ifs; simpl; rewrite Ha; discriminate.
Qed.

Lemma not_final_when_none l :
  count_final l = 0%nat -> Forall (fun d => is_final d = false) l.
Proof.
  unfold count_final. induction l as [|d l IH]; simpl; intros H; constructor.
  - destruct (is_final d); [discriminate | reflexivity].
  - apply IH. destruct (is_final d); [discriminate | assumption].
Qed.

Lemma wire_ok_weaken i i' l :
  _context i' = _context i ->
  (_message i' = _message i \/ Forall (fun d => is_final d = false) l) ->
  (_stream_id i' = _stream_id i \/ truthy (_stream_id i) = false) ->
  Forall (wire_ok i) l -> Forall (wire_ok i') l.
Proof.
  intros Hc Hm Hs H. rewrite Forall_forall in H |- *. intros d Hd.
  destruct (H d Hd) as (H1 & H2 & H3 & H4 & H5).
  repeat split; auto; try congruence.
  - intros Hf. destruct Hm as [Hm | Hm]; [rewrite Hm; auto|].
    rewrite Forall_forall in Hm. rewrite (Hm d Hd) in Hf. discriminate.
  - destruct (H5 _ H0) as [H6 H7]. destruct Hs as [Hs | Hs]; [congruence|].
    rewrite H6 in Hs. rewrite truthy_some in Hs by assumption. discriminate.
  - now destruct (H5 _ H0).
Qed.

Lemma wire_ok_new w self c a i :
  c = _context i ->
  _stream_id (objs w self) = _stream_id i ->
  (informative_shape a \/
   (type a = Typing /\ attachments a = None /\
    exists n, channel_data a = new_channel_data Streaming (Some n)) \/
   (text a = _message i /\ channel_data a = new_channel_data Final None)) ->
  wire_ok i (c, send_activity_prepare w self a).
Proof.
  intros Hc Hi Ha. unfold wire_ok. simpl fst. simpl snd.
  rewrite is_final_prepared, prepare_attachments, prepare_text.
  split; [assumption|]. split; [apply prepare_mirrors|].
  assert (Hid : stream_id (channel_data a) = None).
  { destruct Ha as [(_ & _ & _ & n & ->) | [(_ & _ & n & ->) | (_ & ->)]]; reflexivity. }
  split; [|split].
  - destruct Ha as [(_ & H & _ & n & ->) | [(_ & H & n & ->) | (_ & ->)]];
      simpl; auto; discriminate.
  - destruct Ha as [(_ & _ & _ & n & ->) | [(_ & _ & n & ->) | (H & ->)]];
      simpl; auto; discriminate.
  - intros ident H. rewrite <- Hi. now apply prepare_stream_id_cases with a.
Qed.

Lemma Wire_step self w e :
  Inv self w ->
  Forall (wire_ok (objs w self)) (sent w) ->
  Forall (wire_ok (objs (step self w e) self)) (sent (step self w e)).
Proof.
  intros [Hj _ Hf _] Hw.
  by_cases self w e.
  all: use_queue; open_jobs.
  all: simpl; use_instance; use_queue; simpl; try assumption.
  all: try (apply Forall_app; split; [|constructor; [|constructor]]).
  all: try (eapply wire_ok_weaken; [| | |eassumption]; simpl; auto; fail).
  all: try (eapply wire_ok_weaken;
            [| right; apply not_final_when_none; eassumption | |eassumption];
            simpl; auto; fail).
  all: apply wire_ok_new; simpl; rewrite ?upd_same; use_instance; simpl; eauto 8.
Qed.

Lemma Wire_exchange self events : forall w,
  Inv self w -> Forall (wire_ok (objs w self)) (sent w) ->
  Forall (wire_ok (objs (exchange self w events) self)) (sent (exchange self w events)).
Proof.
  induction events as [|e events IH]; intros w Hi Hw; simpl; auto.
  apply IH; auto using Inv_step, Wire_step.
Qed.

Lemma context_step self w e :
  _context (objs (step self w e) self) = _context (objs w self).
Proof.
  by_cases self w e; use_instance; simpl; auto.
  all: upd_cases; use_instance; simpl; auto.
Qed.

Lemma context_exchange self events : forall w,
  _context (objs (exchange self w events) self) = _context (objs w self).
Proof.
  induction events as [|e events IH]; intros w; simpl; auto.
  now rewrite IH, context_step.
Qed.

Lemma wire_of_exchange running context events d :
  let self := first_engine running context in
  let w := exchange self (fresh_exchange running context) events in
  In d (sent w) -> wire_ok (objs w self) d /\ _context (objs w self) = context.
Proof.
  intros self w Hd.
  assert (H : Forall (wire_ok (objs w self)) (sent w)).
  { apply Wire_exchange; [apply Inv_fresh | constructor]. }
  rewrite Forall_forall in H. split; [now apply H|].
  unfold w. now rewrite context_exchange.
Qed.


(** X7.  The final message carries the whole accumulated text, the text the
    [message] property returns from then on; activities that are not final
    carry no attachments. *)
Theorem final_message_carries_text running context events d :
  let self := first_engine running context in
  let w := exchange self (fresh_exchange running context) events in
  In d (sent w) ->
  (is_final d = true -> text (snd d) = Property.message (objs w self)) /\
  (is_final d = false -> attachments (snd d) = None).
Proof.
  intros self w Hd.
  destruct (wire_of_exchange running context events d Hd)
    as ((_ & _ & H3 & H4 & _) & _).
  split; assumption.
Qed.

(** X8.  No two activities of an exchange carry different stream identifiers: an
    identifier on the wire is never empty and is the one the [stream_id]
    property returns. *)
Theorem one_stream_id_on_the_wire running context events d ident :
  let self := first_engine running context in
  let w := exchange self (fresh_exchange running context) events in
  In d (sent w) ->
  stream_id (channel_data (snd d)) = Some ident ->
  Property.stream_id (objs w self) = Some ident /\ ident <> "".
Proof.
  intros self w Hd Hs.
  destruct (wire_of_exchange running context events d Hd)
    as ((_ & _ & _ & _ & H5) & _).
  now apply H5.
Qed.

(** ** Attachments *)

Lemma attachments_frame s x w e :
  is_set_attachments e = false ->
  read_attachments (step s w e) (objs (step s w e) x) = read_attachments w (objs w x).
Proof.
  intros He. by_cases s w e; try discriminate; auto.
  all: unfold read_attachments; simpl; upd_cases; use_instance; simpl; auto.
Qed.

Lemma attachments_sent self w e :
  Inv self w ->
  exists later,
    sent (step self w e) = sent w ++ later /\
    Forall (fun d => is_final d = true ->
                     attachments (snd d) = Some (read_attachments w (objs w self))) later.
Proof.
  intros [Hj _ _ _].
  assert (Hnil : forall l, exists later, sent w = sent w ++ later /\
                 Forall (fun d => is_final d = true -> attachments (snd d) = Some l) later)
    by (intros l; exists []; split; [now rewrite app_nil_r | constructor]).
  by_cases self w e.
  all: use_queue; open_jobs.
  all: simpl; use_instance; use_queue; simpl; try apply Hnil.
  all: eexists; split; [reflexivity|]; constructor; [|constructor].
  all: cbn [snd]; rewrite is_final_prepared, prepare_attachments; simpl.
  all: repeat match goal with
              | H : informative_shape _ |- _ =>
                  rewrite (informative_stream_type _ H) in *
              end.
  all: try discriminate.
  all: intros _; unfold read_attachments; simpl; congruence.
Qed.

Lemma attachments_step self w e l :
  Inv self w ->
  read_attachments w (objs w self) = l ->
  is_set_attachments e = false ->
  read_attachments (step self w e) (objs (step self w e) self) = l /\
  exists later,
    sent (step self w e) = sent w ++ later /\
    Forall (fun d => is_final d = true -> attachments (snd d) = Some l) later.
Proof.
  intros Hi Ha He. split.
  - now rewrite attachments_frame.
  - rewrite <- Ha. now apply attachments_sent.
Qed.

Lemma attachments_exchange self l events : forall w,
  Inv self w ->
  read_attachments w (objs w self) = l ->
  existsb is_set_attachments events = false ->
  exists later,
    sent (exchange self w events) = sent w ++ later /\
    Forall (fun d => is_final d = true -> attachments (snd d) = Some l) later.
Proof.
  induction events as [|e events IH]; intros w Hi Ha He; simpl in *.
  - exists []. split; [now rewrite app_nil_r | constructor].
  - apply orb_false_elim in He. destruct He as [He1 He2].
    destruct (attachments_step self w e l Hi Ha He1) as (H1 & l1 & H2 & H3).
    destruct (IH _ (Inv_step self w e Hi) H1 He2) as (l2 & H4 & H5).
    exists (l1 ++ l2). split.
    + now rewrite H4, H2, app_assoc.
    + apply Forall_app. auto.
Qed.

(** X9.  The final message carries the attachments of the last [set_attachments]
    call made before it is dequeued, and the empty list when there was
    none. *)
Theorem final_message_attachments running context before l after :
  existsb is_set_attachments after = false ->
  let self := first_engine running context in
  (forall d,
     In d (sent (exchange self (fresh_exchange running context) after)) ->
     is_final d = true -> attachments (snd d) = Some []) /\
  let w0 :=
    exchange self (fresh_exchange running context)
      (before ++ [Produce (SetAttachments l)]) in
  exists later,
    sent (exchange self w0 after) = sent w0 ++ later /\
    Forall (fun d => is_final d = true -> attachments (snd d) = Some l) later.
Proof.
  intros He self. split.
  - destruct (attachments_exchange self [] after (fresh_exchange running context)
                (Inv_fresh running context) eq_refl He) as (later & H1 & H2).
    rewrite H1. simpl. rewrite Forall_forall in H2. exact H2.
  - intros w0. apply attachments_exchange; auto.
    + apply Inv_exchange, Inv_fresh.
    + unfold w0, exchange. rewrite fold_left_app.
      set (w1 := fold_left (step self) before (fresh_exchange running context)).
      change (fold_left (step self) [Produce (SetAttachments l)] w1)
        with (modify self (with_attachments (Some l)) w1).
      unfold read_attachments, modify. cbn [objs with_objs].
      now rewrite upd_same.
Qed.

(** ** The drain task and the producer *)

(** X10.  A producer call never touches a drain task that exists, and when there
    is none it leaves none or creates one that has not started. *)
Theorem producer_keeps_the_drain_task self w c :
  let after := _queue_sync (objs (snd (call self c w)) self) in
  match _queue_sync (objs w self) with
  | Some t => after = Some t
  | None => after = None \/ after = Some Scheduled
  end.
Proof.
  destruct (objs w self)
    as [ctx ns sid msg att ended cit lab efl flt ail task cq] eqn:Ei.
  destruct c; crunch Ei; use_instance; simpl; auto.
Qed.

(** X11.  The configuration calls never raise, not even after the end of the
    stream, and they queue and send nothing and leave the text, the counter,
    the stream identifier, the flags and the drain task as they are. *)
Theorem configuration_calls_only_configure self w c :
  is_configuration c = true ->
  let w' := snd (call self c w) in
  fst (call self c w) = Returned tt /\
  cls_queue w' = cls_queue w /\
  sent w' = sent w /\
  _message (objs w' self) = _message (objs w self) /\
  _next_sequence (objs w' self) = _next_sequence (objs w self) /\
  _stream_id (objs w' self) = _stream_id (objs w self) /\
  _ended (objs w' self) = _ended (objs w self) /\
  _chunk_queued (objs w' self) = _chunk_queued (objs w self) /\
  _queue_sync (objs w' self) = _queue_sync (objs w self).
Proof.
  intros Hc.
  destruct (objs w self)
    as [ctx ns sid msg att ended cit lab efl flt ail task cq] eqn:Ei.
  destruct c; try discriminate; crunch Ei; use_instance; simpl; repeat split.
Qed.

Lemma task_event_step self w t :
  _queue_sync (objs w self) = Some t ->
  let w' := step self w (next_task_event t) in
  (_queue_sync (objs w' self) = None -> cls_queue w' = []) /\
  (List.length (sent w') + List.length (cls_queue w') =
   List.length (sent w) + List.length (cls_queue w))%nat.
Proof.
  intros H.
  destruct (objs w self)
    as [ctx ns sid msg att ended cit lab efl flt ail task cq] eqn:Ei.
  simpl in H. subst task.
  destruct t; simpl; crunch Ei; use_queue; use_instance; simpl;
    rewrite ?length_app; simpl; split; auto; try discriminate; lia.
Qed.

Lemma settle_drains self : forall fuel w,
  (remaining self w <= fuel)%nat ->
  (_queue_sync (objs w self) = None -> cls_queue w = []) ->
  let w' := settle self fuel w in
  cls_queue w' = [] /\
  _queue_sync (objs w' self) = None /\
  List.length (sent w') = (List.length (sent w) + List.length (cls_queue w))%nat.
Proof.
  induction fuel as [|fuel IH]; intros w Hr Hq; simpl.
  - unfold remaining in Hr.
    destruct (_queue_sync (objs w self)) as [[]|] eqn:E; try lia.
    rewrite (Hq eq_refl). simpl. auto.
  - destruct (_queue_sync (objs w self)) as [t|] eqn:E.
    + destruct (task_event_step self w t E) as [H1 H2].
      pose proof (remaining_step self w t E) as H3.
      destruct (IH (step self w (next_task_event t))) as (H4 & H5 & H6); auto; [lia|].
      repeat split; auto. lia.
    + rewrite (Hq eq_refl). simpl. auto.
Qed.

(** X12.  A drain task whose sends succeed empties the queue: it stops after a
    bounded number of events, idle, with nothing left queued, having sent one
    activity for each job that was waiting. *)
Theorem drain_sends_the_whole_queue self w :
  _queue_sync (objs w self) <> None ->
  let w' := settle self (remaining self w) w in
  cls_queue w' = [] /\
  _queue_sync (objs w' self) = None /\
  List.length (sent w') = (List.length (sent w) + List.length (cls_queue w))%nat.
Proof.
  intros H. apply settle_drains; auto. intros H'. contradiction.
Qed.

(** ** Outside an event loop *)

Lemma informative_update_without_loop self w text :
  loop_running w = false -> _queue_sync (objs w self) = None ->
  _ended (objs w self) = false ->
  let activity :=
    {| type := Typing; text := text; attachments := None;
       channel_data := new_channel_data Informative (Some (_next_sequence (objs w self)));
       entities := [] |} in
  queue_informative_update self text w =
  (Raised error_when_sending, with_cls_queue (cls_queue w ++ [JConst activity]) w).
Proof.
  intros Hl Ht He.
  destruct (objs w self)
    as [ctx ns sid msg att ended cit lab efl flt ail task cq] eqn:Ei.
  simpl in *. subst. crunch Ei; first [congruence | reflexivity].
Qed.

(** X13.  With no event loop running, [queue_informative_update] on a live stream
    raises the sending error after it has queued the update and before it
    advances the counter: every such call leaves one more update in the queue,
    all with the same sequence number, and nothing is sent. *)
Theorem informative_updates_outside_loop self texts : forall w,
  loop_running w = false ->
  _queue_sync (objs w self) = None ->
  _ended (objs w self) = false ->
  let w' := exchange self w (map (fun t => Produce (QueueInformativeUpdate t)) texts) in
  (forall t, fst (queue_informative_update self t w) = Raised error_when_sending) /\
  update_texts_queued (cls_queue w') = update_texts_queued (cls_queue w) ++ texts /\
  job_sequences (cls_queue w') =
  job_sequences (cls_queue w) ++ repeat (_next_sequence (objs w self)) (List.length texts) /\
  _next_sequence (objs w' self) = _next_sequence (objs w self) /\
  sent w' = sent w.
Proof.
  induction texts as [|t texts IH]; intros w Hl Ht He.
  - simpl. rewrite !app_nil_r. repeat split.
    intros t. now rewrite informative_update_without_loop.
  - pose proof (informative_update_without_loop self w t Hl Ht He) as Hq.
    cbv zeta in Hq.
    change (exchange self w (map (fun t => Produce (QueueInformativeUpdate t)) (t :: texts)))
      with (exchange self (snd (queue_informative_update self t w))
              (map (fun t => Produce (QueueInformativeUpdate t)) texts)).
    cbv zeta. split.
    + intros t'. now rewrite informative_update_without_loop.
    + rewrite Hq. cbn [snd].
      match goal with
      | |- context [exchange self ?w1 _] =>
          destruct (IH w1) as (_ & H2 & H3 & H4 & H5); auto
      end.
      cbn [objs with_cls_queue cls_queue sent] in H2, H3, H4, H5.
      rewrite H2, H3, H4, H5.
      rewrite update_texts_queued_app, job_sequences_app. simpl.
      rewrite <- !app_assoc. repeat split.
Qed.

(** X14.  With no event loop running, the first flush request of a live stream
    raises the sending error after the work is done: [queue_text_chunk] has
    accumulated the text and queued the flush job, so that a second call
    returns normally and queues nothing; [end_stream] has ended the stream
    and queued the flush job. *)
Theorem flush_requests_outside_loop self w text citations text' citations' :
  loop_running w = false ->
  _queue_sync (objs w self) = None ->
  _ended (objs w self) = false ->
  _chunk_queued (objs w self) = false ->
  let w1 := snd (queue_text_chunk self text citations w) in
  let w2 := snd (queue_text_chunk self text' citations' w1) in
  let w3 := snd (end_stream self w) in
  fst (queue_text_chunk self text citations w) = Raised error_when_sending /\
  _message (objs w1 self) = format_citations_response (_message (objs w self) ++ text)%string /\
  cls_queue w1 = cls_queue w ++ [JFormatNextChunk self] /\
  fst (queue_text_chunk self text' citations' w1) = Returned tt /\
  cls_queue w2 = cls_queue w1 /\
  fst (end_stream self w) = Raised error_when_sending /\
  _ended (objs w3 self) = true /\
  cls_queue w3 = cls_queue w ++ [JFormatNextChunk self].
Proof.
  intros Hl Ht He Hc.
  destruct (objs w self)
    as [ctx ns sid msg att ended cit lab efl flt ail task cq] eqn:Ei.
  simpl in *. subst. crunch Ei; try congruence; repeat split.
Qed.

(** ** The text after the end *)

Lemma message_step s x w e :
  _ended (objs w x) = true -> _message (objs (step s w e) x) = _message (objs w x).
Proof.
  intros H. by_cases s w e; auto.
  all: upd_cases; use_instance; simpl in *; auto; try discriminate.
Qed.

(** X15.  Once the stream of an engine has ended its accumulated text never changes
    again, whatever is called or sent on this or any other engine. *)
Theorem message_frozen_after_end schedule : forall w x,
  _ended (objs w x) = true ->
  _message (objs (run w schedule) x) = _message (objs w x).
Proof.
  induction schedule as [|[s e] schedule IH]; intros w x H; simpl; auto.
  rewrite IH by now apply ended_step. now apply message_step.
Qed.

(** ** Kinds of activity *)

(** X16.  The final activity of an exchange is a durable message and every other
    activity is a typing activity. *)
Theorem final_is_the_only_message running context events d :
  let self := first_engine running context in
  let w := exchange self (fresh_exchange running context) events in
  In d (sent w) ->
  type (snd d) = if is_final d then Message else Typing.
Proof.
  intros self w Hd.
  assert (Hi : Inv self w) by apply Inv_exchange, Inv_fresh.
  pose proof (inv_sent _ _ Hi) as Hs. rewrite Forall_forall in Hs.
  destruct (Hs d Hd) as (H1 & H2 & _).
  destruct (is_final d); [now apply H1 | now apply H2].
Qed.
End Facts.

(** * The theorems on concrete runs *)

(** The scenario of the specification: an informative update, two text
    chunks queued together, the end of the stream, each sent before the next
    call.  Three activities go out: the update with number 1, one streaming
    activity with number 2 and both chunks, and the final message without a
    number. *)
Example scenario_of_the_specification :
  let w :=
    exchange (U := plain_utils) 0 (fresh_exchange true 7)
      [Produce (QueueInformativeUpdate "Thinking..."); TaskStarts;
       SendReturns None; SleepEnds;
       Produce (QueueTextChunk "Hello" None); Produce (QueueTextChunk " world" None);
       TaskStarts; SendReturns None; SleepEnds;
       Produce EndStream; TaskStarts; SendReturns None; SleepEnds] in
  map (fun d => (type (snd d), stream_type (channel_data (snd d)),
                 stream_sequence (channel_data (snd d)), text (snd d)))
    (sent w) =
  [(Typing, Informative, Some 1, "Thinking...");
   (Typing, Streaming, Some 2, "Hello world");
   (Message, Final, None, "Hello world")] /\
  cls_queue w = [] /\ _queue_sync (objs w 0) = None.
Proof. repeat split. Qed.

(** The producer queues an update and two chunks and ends the stream; the
    drain task then runs on a transport that succeeds. *)
Lemma one_final_message_witness :
  let events :=
    [Produce (QueueInformativeUpdate "Thinking..."); TaskStarts;
     Produce (QueueTextChunk "Hello" None); Produce (QueueTextChunk " world" None);
     Produce EndStream] in
  let w := exchange (U := plain_utils) 0 (fresh_exchange true 7) events in
  count_final (sent (settle (U := plain_utils) 0 (remaining 0 w) w)) = 1%nat.
Proof.
  intros events w.
  destruct (one_final_message (U := plain_utils) true 7 events) as (_ & _ & H).
  destruct H as (_ & H); [reflexivity | reflexivity |].
  destruct H as (_ & _ & H); [reflexivity | exact H].
Defined.

(** C1 as stated fails when a send has failed: the pending flush is still
    marked as queued, [end_stream] enqueues nothing and starts no drain task,
    finds nothing to wait for and returns, and no final message is sent; from
    there no event of the drain task changes anything. *)
Lemma end_stream_after_failed_send :
  let w :=
    exchange (U := plain_utils) 0 (fresh_exchange true 7)
      [Produce (QueueInformativeUpdate "Thinking...");
       Produce (QueueTextChunk "Hello" None); TaskStarts; SendRaises] in
  fst (end_stream 0 w) = Returned AwaitYield /\
  let w' := snd (end_stream 0 w) in
  _ended (objs w' 0) = true /\
  _queue_sync (objs w' 0) = None /\
  count_final (sent w') = 0%nat /\
  forall e, is_queueing e = false ->
            count_final (sent (step (U := plain_utils) 0 w' e)) = 0%nat.
Proof.
  split; [reflexivity|]. split; [reflexivity|]. split; [reflexivity|].
  split; [reflexivity|].
  intros e H.
  match goal with
  | |- context [step 0 ?w e] =>
      destruct (idle_quiet_step (U := plain_utils) 0 w e eq_refl H) as (_ & Hs & _);
      rewrite Hs
  end.
  reflexivity.
Qed.

(** Two updates behind a send that fails; the producer then changes a
    setting and the loop offers the finished task its events. *)
Lemma failed_send_stops_drain_witness :
  let w :=
    exchange (U := plain_utils) 0 (fresh_exchange true 7)
      [Produce (QueueInformativeUpdate "one"); Produce (QueueInformativeUpdate "two");
       Produce (QueueInformativeUpdate "three"); TaskStarts] in
  let w' :=
    exchange (U := plain_utils) 0 (step (U := plain_utils) 0 w SendRaises)
      [Produce (SetFeedbackLoop true); TaskStarts; SleepEnds] in
  List.length (cls_queue w') = 2%nat /\ List.length (sent w') = 1%nat.
Proof.
  intros w w'.
  destruct (failed_send_stops_drain (U := plain_utils) 0 w
              [Produce (SetFeedbackLoop true); TaskStarts; SleepEnds]
              eq_refl eq_refl) as (_ & _ & _ & Hq & Hs & _).
  fold w' in Hq, Hs. rewrite Hq, Hs. split; reflexivity.
Defined.

(** C8 as stated fails: the jobs behind the failed one are not dropped, and
    the next queueing call starts a new drain task, which sends the job that
    was queued behind the failed one. *)
Lemma backlog_sent_after_failure :
  let w :=
    exchange (U := plain_utils) 0 (fresh_exchange true 7)
      [Produce (QueueInformativeUpdate "one"); Produce (QueueInformativeUpdate "two");
       TaskStarts; SendRaises] in
  let w' :=
    exchange (U := plain_utils) 0 w
      [Produce (QueueInformativeUpdate "three"); TaskStarts] in
  map (fun d => text (snd d)) (sent w) = ["one"] /\
  _queue_sync (objs w 0) = None /\
  map (fun d => text (snd d)) (sent w') = ["one"; "two"].
Proof. repeat split. Qed.




(** Three chunks in a row behind a queued update: one flush job, and the text
    it would send is all three. *)
Lemma text_chunks_coalesce_witness :
  let w :=
    exchange (U := plain_utils) 0 (fresh_exchange true 7)
      [Produce (QueueInformativeUpdate "Thinking...")] in
  let w' :=
    exchange (U := plain_utils) 0 w
      (map chunk_call [("Hello", None); (" world", None); ("!", None)]) in
  count_chunks (cls_queue w') = 1%nat /\
  text (fst (_format_next_chunk 0 w')) = "Hello world!".
Proof.
  intros w w'.
  destruct (text_chunks_coalesce (U := plain_utils) true 7
              [Produce (QueueInformativeUpdate "Thinking...")]
              [("Hello", None); (" world", None); ("!", None)])
    as (H1 & H2 & _ & H4); [reflexivity | discriminate |].
  split; [exact H1|].
  etransitivity; [exact H4|]. etransitivity; [exact H2|]. reflexivity.
Defined.

(** The first send returns the identifier "stream-1"; the chunk and the final
    message sent afterwards carry it. *)
Lemma stream_id_recorded_and_stamped_witness :
  let w :=
    exchange (U := plain_utils) 0 (fresh_exchange true 7)
      [Produce (QueueInformativeUpdate "Thinking..."); TaskStarts;
       SendReturns (Some {| response_id := Some "stream-1" |});
       Produce (QueueTextChunk "Hello" None)] in
  let w' :=
    exchange (U := plain_utils) 0 w
      [SleepEnds; SendReturns (Some {| response_id := Some "other" |});
       Produce EndStream; SleepEnds] in
  _stream_id (objs w' 0) = Some "stream-1" /\
  map (fun d => stream_id (channel_data (snd d))) (sent w') =
  [None; Some "stream-1"; Some "stream-1"].
Proof.
  intros w w'.
  destruct (stream_id_recorded_and_stamped (U := plain_utils) 0 w
              {| response_id := Some "stream-1" |} "stream-1"
              [SendReturns (Some {| response_id := Some "other" |});
               Produce EndStream; SleepEnds])
    as (_ & H & _); [reflexivity | reflexivity | reflexivity | discriminate |].
  split; [exact H | reflexivity].
Defined.

(** A chunk with a citation list and the same chunk without: the same
    world, and an event that is not [set_citations] leaves the citations of
    the engine as they were. *)
Lemma queue_text_chunk_ignores_citations_witness :
  let w := fresh_exchange true 7 in
  let c := {| title := Some "Handbook"; content := "Chapter one" |} in
  queue_text_chunk (U := plain_utils) 0 "Hello" (Some [c]) w =
  queue_text_chunk (U := plain_utils) 0 "Hello" None w /\
  read_citations (step (U := plain_utils) 0 w TaskStarts)
    (objs (step (U := plain_utils) 0 w TaskStarts) 0) = [].
Proof.
  intros w c.
  destruct (queue_text_chunk_ignores_citations (U := plain_utils) 0 "Hello" [c] w [])
    as (H1 & _ & _ & H2).
  split; [exact H1|].
  rewrite (H2 TaskStarts 0%nat eq_refl). reflexivity.
Defined.

(** Citations on a concrete run: three citations, a text that refers to the
    second.  The chunk sent before the end carries citation 2 alone; the
    informative update queued during the pause and sent after [end_stream]
    carries all three under the generated-by-AI entity, as the final message
    does. *)
Example citations_sent_before_and_after_end :
  let cite t := {| title := Some t; content := "..." |} in
  let w :=
    exchange (U := plain_utils) 0 (fresh_exchange true 7)
      [Produce (SetCitations [cite "One"; cite "Two"; cite "Three"]);
       Produce (SetGeneratedByAiLabel true);
       Produce (QueueTextChunk "see [2]" None); TaskStarts;
       SendReturns (Some {| response_id := Some "stream-1" |});
       Produce (QueueInformativeUpdate "Almost done"); Produce EndStream;
       SleepEnds; SendReturns None; SleepEnds] in
  let cited e :=
    match e with
    | AIEntity kind l _ => [(kind, map position l)]
    | StreamingEntity _ _ _ => []
    end in
  map (fun d => (stream_type (channel_data (snd d)), flat_map cited (entities (snd d))))
    (sent w) =
  [(Streaming, [([], [2])]);
   (Informative, [(["AIGeneratedContent"], [1; 2; 3])]);
   (Final, [(["AIGeneratedContent"], [1; 2; 3])])].
Proof. reflexivity. Qed.

(** * The further properties on concrete runs *)

(** Two citations are added to an engine that has one: the first keeps its
    place, the new ones take positions 2 and 3, and the one without a title
    is named after its position. *)
Lemma set_citations_appends_witness :
  let cite t := {| title := t; content := "Chapter one" |} in
  let w :=
    exchange (U := plain_utils) 0 (fresh_exchange true 7)
      [Produce (SetCitations [cite (Some "Handbook")])] in
  let w' := snd (set_citations (U := plain_utils) 0 [cite None; cite (Some "Guide")] w) in
  set_citations (U := plain_utils) 0 [] w = (Returned tt, w) /\
  map (fun c => (position c, name (appearance c))) (Property.citations w' (objs w' 0)) =
  [(1, "Handbook"); (2, "Document 2"); (3, "Guide")].
Proof.
  intros cite w w'.
  destruct (set_citations_appends (U := plain_utils) 0 w []) as (H1 & H2 & _).
  split; [|reflexivity].
  rewrite (surjective_pairing (set_citations 0 [] w)), H1, (H2 eq_refl).
  reflexivity.
Defined.

(** An update sent, a chunk sent, one update still queued: three numbers
    handed out. *)
Lemma updates_sent_counts_witness :
  let events :=
    [Produce (QueueInformativeUpdate "Thinking..."); TaskStarts; SendReturns None;
     Produce (QueueTextChunk "Hello" None); SleepEnds;
     Produce (QueueInformativeUpdate "Almost done")] in
  let w := exchange (U := plain_utils) 0 (fresh_exchange true 7) events in
  updates_sent (objs w 0) = 3.
Proof.
  intros events w.
  etransitivity;
    [exact (updates_sent_counts (U := plain_utils) true 7 events eq_refl) | reflexivity].
Defined.


(** Two chunks and the end before the drain task runs: the one activity
    sent is the final message with both chunks. *)
Lemma final_message_carries_text_witness :
  let events :=
    [Produce (QueueTextChunk "Hello" None); Produce (QueueTextChunk " world" None);
     Produce EndStream; TaskStarts] in
  let w := exchange (U := plain_utils) 0 (fresh_exchange true 7) events in
  List.length (sent w) = 1%nat /\
  Forall (fun d => is_final d = true -> text (snd d) = "Hello world") (sent w).
Proof.
  intros events w. split; [vm_compute; reflexivity|].
  apply Forall_forall. intros d Hd Hf.
  destruct (final_message_carries_text (U := plain_utils) true 7 events d Hd) as [H _].
  specialize (H Hf). vm_compute in H. vm_compute. exact H.
Defined.

(** The first response carries "stream-1", a later one "other": only
    "stream-1" is ever on the wire. *)
Lemma one_stream_id_on_the_wire_witness :
  let events :=
    [Produce (QueueInformativeUpdate "Thinking..."); TaskStarts;
     SendReturns (Some {| response_id := Some "stream-1" |});
     Produce (QueueTextChunk "Hello" None); SleepEnds;
     SendReturns (Some {| response_id := Some "other" |})] in
  let w := exchange (U := plain_utils) 0 (fresh_exchange true 7) events in
  List.length (sent w) = 2%nat /\
  Forall
    (fun d =>
       stream_id (channel_data (snd d)) = None \/
       stream_id (channel_data (snd d)) = Some "stream-1")
    (sent w).
Proof.
  intros events w. split; [vm_compute; reflexivity|].
  apply Forall_forall. intros d Hd.
  destruct (stream_id (channel_data (snd d))) as [ident|] eqn:Hs; [right | now left].
  destruct (one_stream_id_on_the_wire (U := plain_utils) true 7 events d ident Hd Hs)
    as [H _].
  vm_compute in H. injection H as H. now rewrite H.
Defined.

(** A first list of attachments is replaced before the end: the final message
    carries the second. *)
Lemma final_message_attachments_witness :
  let w :=
    exchange (U := plain_utils) 0 (fresh_exchange true 7)
      [Produce (SetAttachments ["draft"]); Produce (QueueTextChunk "Hello" None);
       Produce (SetAttachments ["card"]); Produce EndStream; TaskStarts] in
  map (fun d => attachments (snd d)) (sent w) = [Some ["card"]].
Proof.
  intros w.
  destruct (final_message_attachments (U := plain_utils) true 7
              [Produce (SetAttachments ["draft"]); Produce (QueueTextChunk "Hello" None)]
              ["card"] [Produce EndStream; TaskStarts] eq_refl)
    as (_ & later & H1 & H2).
  reflexivity.
Defined.

(** Citations are still accepted after the end of the stream. *)
Lemma configuration_calls_only_configure_witness :
  let c := SetCitations [{| title := None; content := "Chapter one" |}] in
  let w :=
    exchange (U := plain_utils) 0 (fresh_exchange true 7)
      [Produce (QueueTextChunk "Hello" None); Produce EndStream] in
  fst (call (U := plain_utils) 0 c w) = Returned tt /\
  cls_queue (snd (call (U := plain_utils) 0 c w)) = cls_queue w.
Proof.
  intros c w.
  destruct (configuration_calls_only_configure (U := plain_utils) 0 w c eq_refl)
    as (H1 & H2 & _).
  split; assumption.
Defined.

(** Two updates and a flush are queued behind a drain task that has not
    started. *)
Lemma drain_sends_the_whole_queue_witness :
  let w :=
    exchange (U := plain_utils) 0 (fresh_exchange true 7)
      [Produce (QueueInformativeUpdate "one"); Produce (QueueInformativeUpdate "two");
       Produce (QueueTextChunk "Hello" None)] in
  let w' := settle (U := plain_utils) 0 (remaining 0 w) w in
  cls_queue w' = [] /\ List.length (sent w') = 3%nat.
Proof.
  intros w w'.
  destruct (drain_sends_the_whole_queue (U := plain_utils) 0 w) as (H1 & _ & H3).
  - discriminate.
  - split; [exact H1 | exact H3].
Defined.

(** Two updates queued with no event loop: both carry number 1. *)
Lemma informative_updates_outside_loop_witness :
  let w :=
    exchange (U := plain_utils) 0 (fresh_exchange false 7)
      [Produce (QueueInformativeUpdate "one"); Produce (QueueInformativeUpdate "two")] in
  job_sequences (cls_queue w) = [1; 1] /\ sent w = [].
Proof.
  intros w.
  destruct (informative_updates_outside_loop (U := plain_utils) 0 ["one"; "two"]
              (fresh_exchange false 7) eq_refl eq_refl eq_refl)
    as (_ & _ & H3 & _ & H5).
  split; [exact H3 | exact H5].
Defined.

(** Two chunks with no event loop: the first call raises, the second
    returns. *)
Lemma flush_requests_outside_loop_witness :
  let w := fresh_exchange false 7 in
  fst (queue_text_chunk (U := plain_utils) 0 "Hello" None w) =
  Raised error_when_sending /\
  fst (queue_text_chunk (U := plain_utils) 0 " world" None
         (snd (queue_text_chunk (U := plain_utils) 0 "Hello" None w))) = Returned tt.
Proof.
  intros w.
  destruct (flush_requests_outside_loop (U := plain_utils) 0 w "Hello" None " world" None
              eq_refl eq_refl eq_refl eq_refl)
    as (H1 & _ & _ & H4 & _).
  split; assumption.
Defined.

(** A chunk offered after the end is refused and the text stays. *)
Lemma message_frozen_after_end_witness :
  let w :=
    exchange (U := plain_utils) 0 (fresh_exchange true 7)
      [Produce (QueueTextChunk "Hello" None); Produce EndStream] in
  _message
    (objs (run (U := plain_utils) w
             [(0%nat, Produce (QueueTextChunk " world" None)); (0%nat, TaskStarts)]) 0) =
  "Hello".
Proof.
  intros w.
  etransitivity;
    [exact (message_frozen_after_end (U := plain_utils)
              [(0%nat, Produce (QueueTextChunk " world" None)); (0%nat, TaskStarts)]
              w 0%nat eq_refl)
    | reflexivity].
Defined.

(** An update and the end, both sent: a typing activity, then the message. *)
Lemma final_is_the_only_message_witness :
  let events :=
    [Produce (QueueInformativeUpdate "Thinking..."); Produce EndStream; TaskStarts;
     SendReturns None; SleepEnds] in
  let w := exchange (U := plain_utils) 0 (fresh_exchange true 7) events in
  map (fun d => is_final d) (sent w) = [false; true] /\
  Forall (fun d => type (snd d) = if is_final d then Message else Typing) (sent w).
Proof.
  intros events w. split; [vm_compute; reflexivity|].
  apply Forall_forall. intros d Hd.
  exact (final_is_the_only_message (U := plain_utils) true 7 events d Hd).
Defined.
